(** * kedge: the ad-hoc addresser and the gRPC director

    A shallow embedding of

    - [http/director/router] : [addresser.Address] with its helpers
      [resolveHost], [extractHostPort], [hostMatches] and [portAllowed],
      first over rule lists whose entries are all present, then ([raw])
      over lists with nil entries;
    - [grpc/director/director.go] : the stream director built by [New];
    - the helpers of the integration suite and the proxy
      auto-configuration file.

    Go strings are byte strings and are modelled by [string]; Go's [int]
    (64 bit) by [Z]; [uint32] by [Z] with the conversion written out.
    A run-time panic is an explicit outcome of the [go] type. *)

From Stdlib Require Import ZArith List String Ascii Bool Lia.
From Stdlib Require Import DecimalString.
Import ListNotations.
Local Open Scope string_scope.
Local Open Scope Z_scope.

(** ** Outcomes of a Go call: a normal return or a run-time panic *)

Inductive panic : Type :=
| NilDereference      (* invalid memory address or nil pointer dereference *)
| IndexOutOfRange.    (* index out of range *)

Inductive go (A : Type) : Type :=
| Return (a : A)
| Panics (p : panic).

Arguments Return {A} a.
Arguments Panics {A} p.

Definition bind {A B : Type} (m : go A) (k : A -> go B) : go B :=
  match m with
  | Return a => k a
  | Panics p => Panics p
  end.

Notation "x <- m ;; k" := (bind m (fun x => k))
  (at level 61, m at next level, right associativity).

(** ** The fragments of Go's standard library that the addresser calls *)

Module strings.

(** [strings.LastIndex s sep], scanning from position [i] of the whole
    string: the index of the last occurrence of [sep], or -1. *)
Fixpoint LastIndex_from (i : Z) (s sep : string) : Z :=
  match s with
  | EmptyString => if String.prefix sep s then i else -1
  | String _ s' =>
      let later := LastIndex_from (i + 1) s' sep in
      if later =? -1 then (if String.prefix sep s then i else -1) else later
  end.

Definition LastIndex (s sep : string) : Z := LastIndex_from 0 s sep.

End strings.

(** Slice expressions [s[lo:]] and [s[:hi]] for offsets that are in range
    (the only ones the addresser produces). *)
Definition slice_from (s : string) (lo : Z) : string :=
  String.substring (Z.to_nat lo) (String.length s - Z.to_nat lo) s.

Definition slice_to (s : string) (hi : Z) : string :=
  String.substring 0 (Z.to_nat hi) s.

Module strconv.

Inductive sentinel : Type := ErrSyntax | ErrRange.

(** [*strconv.NumError] *)
Record NumError : Type := mkNumError {
  Func : string;
  Num : string;
  Err : sentinel
}.

Definition syntaxError (fn str : string) : NumError := mkNumError fn str ErrSyntax.
Definition rangeError (fn str : string) : NumError := mkNumError fn str ErrRange.

Definition maxUint64 : Z := 2 ^ 64 - 1.

(** The value of a byte as a base-10 digit; a byte that is no digit is a
    syntax error in base 10. *)
Definition digit (c : ascii) : option Z :=
  let n := Z.of_nat (nat_of_ascii c) in
  if (48 <=? n) && (n <=? 57) then Some (n - 48) else None.

(** The digit loop of [ParseUint] in base 10, on 64-bit unsigned [n]. *)
Fixpoint ParseUint_loop (s0 s : string) (maxVal n : Z) : Z * option NumError :=
  match s with
  | EmptyString => (n, None)
  | String c s' =>
      match digit c with
      | None => (0, Some (syntaxError "ParseUint" s0))
      | Some v =>
          if maxUint64 / 10 + 1 <=? n
          then (maxVal, Some (rangeError "ParseUint" s0))
          else
            let n10 := n * 10 in
            let n1 := (n10 + v) mod 2 ^ 64 in
            if (n1 <? n10) || (maxVal <? n1)
            then (maxVal, Some (rangeError "ParseUint" s0))
            else ParseUint_loop s0 s' maxVal n1
      end
  end.

(** [strconv.ParseUint s 10 bitSize] *)
Definition ParseUint (s : string) (bitSize : Z) : Z * option NumError :=
  match s with
  | EmptyString => (0, Some (syntaxError "ParseUint" s))
  | _ => ParseUint_loop s s (2 ^ bitSize - 1) 0
  end.

(** [strconv.ParseInt s 10 bitSize] *)
Definition ParseInt (s : string) (bitSize : Z) : Z * option NumError :=
  match s with
  | EmptyString => (0, Some (syntaxError "ParseInt" s))
  | String c rest =>
      let s0 := s in
      let neg := Ascii.eqb c "-" in
      let s := if Ascii.eqb c "+" || Ascii.eqb c "-" then rest else s in
      let '(un, err) := ParseUint s bitSize in
      match err with
      | Some (mkNumError _ _ ErrSyntax) => (0, Some (syntaxError "ParseInt" s0))
      | _ =>
          let cutoff := 2 ^ (bitSize - 1) in
          if negb neg && (cutoff <=? un)
          then (cutoff - 1, Some (rangeError "ParseInt" s0))
          else if neg && (cutoff <? un)
          then (- cutoff, Some (rangeError "ParseInt" s0))
          else ((if neg then - un else un), None)
      end
  end.

(** [strconv.FormatInt i 10] *)
Definition FormatInt (i : Z) : string := NilZero.string_of_int (Z.to_int i).

End strconv.

Module net.

Fixpoint contains_byte (c : ascii) (s : string) : bool :=
  match s with
  | EmptyString => false
  | String d s' => Ascii.eqb c d || contains_byte c s'
  end.

(** [net.JoinHostPort]: a host holding a colon or a percent sign is put
    in square brackets (the percent sign counts in the Go releases of the
    time of this code). *)
Definition JoinHostPort (host port : string) : string :=
  if contains_byte ":" host || contains_byte "%" host
  then "[" ++ host ++ "]:" ++ port
  else host ++ ":" ++ port.

End net.

Module http.
Definition StatusBadRequest : Z := 400.
Definition StatusBadGateway : Z := 502.
End http.

(** ** Configuration messages ([kedge.config.http.routes.Adhoc])

    The generated Go structs are used through their fields
    [DnsNameMatcher], [Port], [Port.Default], [Port.Allowed],
    [Port.AllowedRanges], [From] and [To].  [Port] is a pointer to a
    sub-message and can be nil.  The elements of the rule list and of the
    range list are taken to be present here; lists with absent entries
    are the subject of [raw] further down. *)

Module pb.

Record Adhoc_Port_Range : Type := mkRange {
  From : Z;   (* uint32 *)
  To : Z      (* uint32 *)
}.

Record Adhoc_Port : Type := mkPort {
  Default : Z;                           (* uint32 *)
  Allowed : list Z;                      (* []uint32 *)
  AllowedRanges : list Adhoc_Port_Range
}.

Record Adhoc : Type := mkAdhoc {
  DnsNameMatcher : string;
  Port : option Adhoc_Port               (* nil when absent *)
}.

End pb.

(** ** Errors of the router package

    [NewError] and the sentinel [ErrRouteNotFound] are declared next to
    the addresser.  An error built by [NewError] keeps its HTTP status and
    its message; a message made by [fmt.Sprintf] keeps the format string
    and the argument. *)

Inductive fmt_arg : Type :=
| ArgInt (n : Z)
| ArgError (e : strconv.NumError).

Inductive message : Type :=
| Literal (s : string)
| Sprintf (format : string) (arg : fmt_arg).

Inductive error : Type :=
| NewError (status : Z) (msg : message)
| ErrRouteNotFound.

(** [uint32(port)] for a 64-bit [int]. *)
Definition uint32 (n : Z) : Z := n mod 2 ^ 32.

(** ** The addresser *)

Record addresser : Type := NewAddresser { rules : list pb.Adhoc }.

(** A request, as far as the addresser reads it: [req.URL.Host]. *)
Record Request : Type := mkRequest { URL_Host : string }.

Definition extractHostPort (hostStr : string) : string * Z * option error :=
  let portOffset := strings.LastIndex hostStr ":" in
  if portOffset =? -1 then (hostStr, 0, None)
  else
    let portPart := slice_from hostStr portOffset in
    let '(pNum, err) := strconv.ParseInt portPart 16 in
    match err with
    | Some e =>
        (EmptyString, 0, Some (NewError http.StatusBadRequest
                        (Sprintf "malformed port number: %v" (ArgError e))))
    | None => (slice_to hostStr portOffset, pNum, None)
    end.

Definition hostMatches (host matcher : string) : bool :=
  match matcher with
  | EmptyString => false
  | String c rest =>
      if negb (Ascii.eqb c "*")
      then String.eqb host matcher
      else String.eqb host rest
  end.

(** The two loops of [portAllowed]. *)
Fixpoint inAllowed (uPort : Z) (ps : list Z) : bool :=
  match ps with
  | [] => false
  | p :: ps' => if p =? uPort then true else inAllowed uPort ps'
  end.

Fixpoint inAllowedRanges (uPort : Z) (rs : list pb.Adhoc_Port_Range) : bool :=
  match rs with
  | [] => false
  | r :: rs' =>
      if (pb.From r <=? uPort) && (uPort <=? pb.To r) then true
      else inAllowedRanges uPort rs'
  end.

Definition portAllowed (port : Z) (portRule : option pb.Adhoc_Port) : go bool :=
  let uPort := uint32 port in
  match portRule with
  | None => Panics NilDereference
  | Some portRule =>
      if inAllowed uPort (pb.Allowed portRule) then Return true
      else if inAllowedRanges uPort (pb.AllowedRanges portRule) then Return true
      else Return false
  end.

(** Lines 46-53 of [Address]: the port checked against the rule. *)
Definition portForRule (port : Z) (rule : pb.Adhoc) : go Z :=
  if port =? 0 then
    match pb.Port rule with
    | None => Panics NilDereference
    | Some p =>
        let defPort := pb.Default p in
        if negb (defPort =? 0) then Return defPort else Return 80
    end
  else Return port.

Section Addresser.

(** [DefaultALookup], the package variable holding the lookup function:
    the resolved addresses and an error (nil when [None]). *)
Variable DefaultALookup : string -> list string * option string.

Definition resolveHost (hostStr : string) : go (string * option error) :=
  let '(addrs, err) := DefaultALookup hostStr in
  match err with
  | Some _ =>
      Return (EmptyString, Some (NewError http.StatusBadGateway (Literal "cannot resolve host")))
  | None =>
      match addrs with
      | [] => Panics IndexOutOfRange
      | a0 :: _ => Return (a0, None)
      end
  end.

(** The [for _, rule := range a.rules] loop of [Address] with the
    statement after it. *)
Fixpoint Address_loop (reqHost hostName : string) (port : Z)
         (rs : list pb.Adhoc) : go (string * option error) :=
  match rs with
  | [] => Return (EmptyString, Some ErrRouteNotFound)
  | rule :: rs' =>
      if negb (hostMatches reqHost (pb.DnsNameMatcher rule))
      then Address_loop reqHost hostName port rs'
      else
        pfr <- portForRule port rule ;;
        ok <- portAllowed pfr (pb.Port rule) ;;
        if negb ok
        then Return (EmptyString, Some (NewError http.StatusBadRequest
                                 (Sprintf "port %d is not allowed" (ArgInt pfr))))
        else
          res <- resolveHost hostName ;;
          match snd res with
          | Some _ =>
              Return (net.JoinHostPort (fst res) (strconv.FormatInt pfr), None)
          | None => Address_loop reqHost hostName port rs'
          end
  end.

Definition Address (a : addresser) (req : Request) : go (string * option error) :=
  let '(hostName, port, err) := extractHostPort (URL_Host req) in
  match err with
  | Some e => Return (EmptyString, Some e)
  | None => Address_loop (URL_Host req) hostName port (rules a)
  end.

End Addresser.



(** ** The addresser over configurations with absent entries

    The rule list is a [[]*pb.Adhoc] and [AllowedRanges] a
    [[]*pb.Adhoc_Port_Range]: besides the [Port] message, a rule or a
    range of the list can itself be nil.  Reading a field of a nil entry
    panics.  [raw] is the addresser over such lists; on lists whose
    entries are all present it is the addresser above. *)

Module raw.

Record Adhoc_Port : Type := mkPort {
  Default : Z;                                       (* uint32 *)
  Allowed : list Z;                                  (* []uint32 *)
  AllowedRanges : list (option pb.Adhoc_Port_Range)  (* nil entries as None *)
}.

Record Adhoc : Type := mkAdhoc {
  DnsNameMatcher : string;
  Port : option Adhoc_Port                           (* nil when absent *)
}.

Record addresser : Type := NewAddresser { rules : list (option Adhoc) }.

(** The second loop of [portAllowed]; [r.From] panics on a nil entry. *)
Fixpoint inAllowedRanges (uPort : Z) (rs : list (option pb.Adhoc_Port_Range)) : go bool :=
  match rs with
  | [] => Return false
  | None :: _ => Panics NilDereference
  | Some r :: rs' =>
      if (pb.From r <=? uPort) && (uPort <=? pb.To r) then Return true
      else inAllowedRanges uPort rs'
  end.

Definition portAllowed (port : Z) (portRule : option Adhoc_Port) : go bool :=
  let uPort := uint32 port in
  match portRule with
  | None => Panics NilDereference
  | Some portRule =>
      if inAllowed uPort (Allowed portRule) then Return true
      else inAllowedRanges uPort (AllowedRanges portRule)
  end.

(** Lines 46-53 of [Address]. *)
Definition portForRule (port : Z) (rule : Adhoc) : go Z :=
  if port =? 0 then
    match Port rule with
    | None => Panics NilDereference
    | Some p =>
        let defPort := Default p in
        if negb (defPort =? 0) then Return defPort else Return 80
    end
  else Return port.

Section Addresser.

Variable DefaultALookup : string -> list string * option string.

(** The loop of [Address]; [rule.DnsNameMatcher] panics on a nil rule. *)
Fixpoint Address_loop (reqHost hostName : string) (port : Z)
         (rs : list (option Adhoc)) : go (string * option error) :=
  match rs with
  | [] => Return (EmptyString, Some ErrRouteNotFound)
  | None :: _ => Panics NilDereference
  | Some rule :: rs' =>
      if negb (hostMatches reqHost (DnsNameMatcher rule))
      then Address_loop reqHost hostName port rs'
      else
        pfr <- portForRule port rule ;;
        ok <- portAllowed pfr (Port rule) ;;
        if negb ok
        then Return (EmptyString,
                     Some (NewError http.StatusBadRequest
                             (Sprintf "port %d is not allowed" (ArgInt pfr))))
        else
          res <- resolveHost DefaultALookup hostName ;;
          match snd res with
          | Some _ =>
              Return (net.JoinHostPort (fst res) (strconv.FormatInt pfr), None)
          | None => Address_loop reqHost hostName port rs'
          end
  end.

Definition Address (a : addresser) (req : Request) : go (string * option error) :=
  let '(hostName, port, err) := extractHostPort (URL_Host req) in
  match err with
  | Some e => Return (EmptyString, Some e)
  | None => Address_loop (URL_Host req) hostName port (rules a)
  end.

End Addresser.

(** A configuration without absent entries, seen as one that may have
    them. *)
Definition of_port (p : pb.Adhoc_Port) : Adhoc_Port :=
  mkPort (pb.Default p) (pb.Allowed p) (map Some (pb.AllowedRanges p)).

Definition of_rule (r : pb.Adhoc) : Adhoc :=
  mkAdhoc (pb.DnsNameMatcher r) (option_map of_port (pb.Port r)).

End raw.

Definition raw_of_addresser (a : addresser) : raw.addresser :=
  raw.NewAddresser (map (fun r => Some (raw.of_rule r)) (rules a)).

(** ** The gRPC director ([grpc/director/director.go])

    The closure returned by [New] talks to three collaborators: the
    router, the logging metadata of the context and the backend pool.
    Each call is an event of a small program tree; a handler gives the
    collaborators' answers and threads their state, and [run] records the
    calls in the order they were made. *)

Module director.

Section Director.

Variables Context ClientConn err : Type.

Inductive call : Type -> Type :=
| Router_Route (ctx : Context) (fullMethodName : string) : call (string * option err)
| AddFieldsFromMiddleware (ctx : Context) (keys vals : list string) : call unit
| Pool_Conn (beName : string) : call (option ClientConn * option err).

Inductive prog (A : Type) : Type :=
| Done (a : A)
| Call {X : Type} (c : call X) (k : X -> prog A).

Arguments Done {A} a.
Arguments Call {A X} c k.

(** The calls as they appear in a trace. *)
Inductive event : Type :=
| EvRoute (ctx : Context) (fullMethodName : string)
| EvAddFields (ctx : Context) (keys vals : list string)
| EvConn (beName : string).

Definition event_of {X : Type} (c : call X) : event :=
  match c with
  | Router_Route ctx m => EvRoute ctx m
  | AddFieldsFromMiddleware ctx ks vs => EvAddFields ctx ks vs
  | Pool_Conn n => EvConn n
  end.

(** The stream director: [New(pool, router)(ctx, fullMethodName)]. *)
Definition New (ctx : Context) (fullMethodName : string)
  : prog (option ClientConn * option err) :=
  Call (Router_Route ctx fullMethodName) (fun r =>
    let '(beName, e) := r in
    match e with
    | Some e => Done (None, Some e)
    | None =>
        Call (AddFieldsFromMiddleware ctx ["proxy_backend"] [beName]) (fun _ =>
          Call (Pool_Conn beName) (fun c =>
            let '(cc, e) := c in
            match e with
            | Some e => Done (None, Some e)
            | None => Done (cc, None)
            end))
    end).

(** The collaborators: an answer and a new state for every call. *)
Definition handler (W : Type) : Type := forall X : Type, call X -> W -> X * W.

Fixpoint run {W A : Type} (h : handler W) (p : prog A) (w : W) : A * W * list event :=
  match p with
  | Done a => (a, w, [])
  | Call c k =>
      let '(x, w1) := h _ c w in
      let '(a, w2, t) := run h (k x) w1 in
      (a, w2, event_of c :: t)
  end.

End Director.

Arguments Done {Context ClientConn err A} a.
Arguments Call {Context ClientConn err A X} c k.
Arguments event_of {Context ClientConn err X} c.
Arguments Router_Route {Context ClientConn err} ctx fullMethodName.
Arguments AddFieldsFromMiddleware {Context ClientConn err} ctx keys vals.
Arguments Pool_Conn {Context ClientConn err} beName.
Arguments EvRoute {Context} ctx fullMethodName.
Arguments EvAddFields {Context} ctx keys vals.
Arguments EvConn {Context} beName.
Arguments New {Context ClientConn err} ctx fullMethodName.
Arguments run {Context ClientConn err W A} h p w.

End director.

(** ** The helpers of the integration suite ([http_integration])

    [localBackends] holds the listeners started on the local host; a
    listener is modelled by its address, [Addr().String()].  The mutex
    and the servers are left out. *)

Module http_integration.

(** [time.Millisecond], in nanoseconds. *)
Definition Millisecond : Z := 1000000.

Definition backendResolutionDuration : Z := 10 * Millisecond.

(** [srv.Target] *)
Record Target : Type := mkTarget {
  Ttl : Z;
  DialAddr : string
}.

Record localBackends : Type := mkLocalBackends {
  resolvable : Z;
  listeners : list string
}.

Definition setResolvableCount (l : localBackends) (count : Z) : localBackends :=
  mkLocalBackends count (listeners l).

(** The loop of [targets], [for i := 0; i < l.resolvable && i <
    len(l.listeners); i++]: [rest] is [l.listeners[i:]]. *)
Fixpoint targets_loop (i resolvable : Z) (rest : list string)
         (targets : list Target) : list Target :=
  match rest with
  | [] => targets
  | addr :: rest' =>
      if i <? resolvable
      then targets_loop (i + 1) resolvable rest'
                        (targets ++ [mkTarget backendResolutionDuration addr])
      else targets
  end.

Definition targets (l : localBackends) : list Target :=
  targets_loop 0 (resolvable l) (listeners l) [].

(** The error of [fmt.Errorf], format and argument kept. *)
Inductive lookup_error : Type :=
| Errorf (format : string) (arg : string).

(** [Lookup], the SRV resolver of the suite over its map of local
    backends. *)
Definition Lookup (localBackendsMap : string -> option localBackends)
           (domainName : string) : list Target * option lookup_error :=
  match localBackendsMap domainName with
  | None => ([], Some (Errorf "Unknown local backend '%v' in testing" domainName))
  | Some local => (targets local, None)
  end.

(** [LookupAddr], the A resolver of the suite: always the local host. *)
Definition LookupAddr (addr : string) : list string * option string :=
  (["127.0.0.1"], None).

Definition adhocConfig : list pb.Adhoc :=
  [pb.mkAdhoc "*.pods.test.local"
              (Some (pb.mkPort 0 [] [pb.mkRange 1024 65535]))].

End http_integration.

(** ** The proxy auto-configuration file ([misc/pac.http.js])

    [FindProxyForURL] tests the URL against a regular expression.  The
    expression is kept as a syntax tree and tested with derivatives;
    characters are the bytes of the string. *)

Module pac.

Inductive regex : Type :=
| Void                       (* matches nothing; arises in derivatives *)
| Eps                        (* the empty expression *)
| Lit (c : ascii)            (* a literal character *)
| NotLit (c : ascii)         (* [^c] *)
| Digit                      (* [\d] *)
| Seq (r1 r2 : regex)
| Alt (r1 r2 : regex)
| Star (r : regex).

(** [r+] and [r?] *)
Definition Plus (r : regex) : regex := Seq r (Star r).
Definition Opt (r : regex) : regex := Alt r Eps.

(** A run of literal characters. *)
Fixpoint Str (s : string) : regex :=
  match s with
  | EmptyString => Eps
  | String c s' => Seq (Lit c) (Str s')
  end.

Definition is_digit (c : ascii) : bool :=
  let n := nat_of_ascii c in (48 <=? n)%nat && (n <=? 57)%nat.

Fixpoint nullable (r : regex) : bool :=
  match r with
  | Void => false
  | Eps => true
  | Lit _ => false
  | NotLit _ => false
  | Digit => false
  | Seq r1 r2 => nullable r1 && nullable r2
  | Alt r1 r2 => nullable r1 || nullable r2
  | Star _ => true
  end.

Fixpoint deriv (a : ascii) (r : regex) : regex :=
  match r with
  | Void => Void
  | Eps => Void
  | Lit c => if Ascii.eqb a c then Eps else Void
  | NotLit c => if Ascii.eqb a c then Void else Eps
  | Digit => if is_digit a then Eps else Void
  | Seq r1 r2 =>
      if nullable r1
      then Alt (Seq (deriv a r1) r2) (deriv a r2)
      else Seq (deriv a r1) r2
  | Alt r1 r2 => Alt (deriv a r1) (deriv a r2)
  | Star r1 => Seq (deriv a r1) (Star r1)
  end.

(** [regexp.test(s)] for an expression anchored at the start only: some
    prefix of [s] matches. *)
Fixpoint test (r : regex) (s : string) : bool :=
  nullable r ||
  match s with
  | EmptyString => false
  | String a s' => test (deriv a r) s'
  end.

(** [/^http:\/\/[^\/]+\.local(\:[\d]+)?\//] *)
Definition regexp : regex :=
  Seq (Str "http://")
      (Seq (Plus (NotLit "/"))
           (Seq (Str ".local")
                (Seq (Opt (Seq (Lit ":") (Plus Digit)))
                     (Lit "/")))).

Definition FindProxyForURL (url host : string) : string :=
  if test regexp url then "PROXY localhost:8080" else "DIRECT".

End pac.

(** * Properties *)

(** ** Parsing the target host *)

Lemma prefix_colon_head (c : ascii) (s : string) :
  String.prefix ":" (String c s) = true -> c = ":"%char.
Proof.
  change (String.prefix ":" (String c s))
    with (if ascii_dec ":" c then String.prefix EmptyString s else false).
  destruct (ascii_dec ":" c) as [E | _]; [intros _; now symmetry | discriminate].
Qed.

Lemma substring_all (s : string) : String.substring 0 (String.length s) s = s.
Proof. induction s as [| c s IH]; simpl; [reflexivity | now rewrite IH]. Qed.

(** Where [LastIndex] finds a colon, the slice from that offset starts
    with the colon itself. *)
Lemma LastIndex_from_colon (s : string) :
  forall i, 0 <= i ->
    let r := strings.LastIndex_from i s ":" in
    r = -1 \/
    (i <= r /\
     exists rest,
       String.substring (Z.to_nat (r - i)) (String.length s - Z.to_nat (r - i)) s
       = String ":" rest).
Proof.
  induction s as [| c s IH]; intros i Hi; cbn zeta.
  - left. reflexivity.
  - cbn [strings.LastIndex_from].
    destruct (strings.LastIndex_from (i + 1) s ":" =? -1) eqn:E.
    + destruct (String.prefix ":" (String c s)) eqn:P; [right | now left].
      split; [lia |].
      rewrite Z.sub_diag. change (Z.to_nat 0) with 0%nat. rewrite Nat.sub_0_r.
      rewrite substring_all. apply prefix_colon_head in P. subst c. now exists s.
    + right. apply Z.eqb_neq in E.
      destruct (IH (i + 1) ltac:(lia)) as [F | [Hle [rest Hrest]]]; [contradiction |].
      split; [lia |]. exists rest.
      set (r := strings.LastIndex_from (i + 1) s ":") in *.
      replace (Z.to_nat (r - i)) with (S (Z.to_nat (r - (i + 1)))) by lia.
      cbn [String.length String.substring Nat.sub]. exact Hrest.
Qed.

Lemma slice_from_LastIndex (s : string) :
  strings.LastIndex s ":" <> -1 ->
  exists rest, slice_from s (strings.LastIndex s ":") = String ":" rest.
Proof.
  intros H. unfold strings.LastIndex in *.
  destruct (LastIndex_from_colon s 0 ltac:(lia)) as [F | [_ [rest Hrest]]];
    [contradiction |].
  exists rest. unfold slice_from. rewrite Z.sub_0_r in Hrest. exact Hrest.
Qed.

(** A port text that starts with the colon is never a number. *)
Lemma ParseInt_colon (rest : string) (bitSize : Z) :
  strconv.ParseInt (String ":" rest) bitSize
  = (0, Some (strconv.syntaxError "ParseInt" (String ":" rest))).
Proof. reflexivity. Qed.

Definition MalformedPort (portPart : string) : error :=
  NewError http.StatusBadRequest
    (Sprintf "malformed port number: %v"
       (ArgError (strconv.syntaxError "ParseInt" portPart))).

Lemma extractHostPort_no_colon (hostStr : string) :
  strings.LastIndex hostStr ":" = -1 ->
  extractHostPort hostStr = (hostStr, 0, None).
Proof. intros H. unfold extractHostPort. now rewrite H. Qed.

Lemma extractHostPort_colon (hostStr : string) :
  strings.LastIndex hostStr ":" <> -1 ->
  extractHostPort hostStr
  = (EmptyString, 0, Some (MalformedPort (slice_from hostStr (strings.LastIndex hostStr ":")))).
Proof.
  intros H. unfold extractHostPort.
  destruct (strings.LastIndex hostStr ":" =? -1) eqn:E;
    [apply Z.eqb_eq in E; contradiction |].
  destruct (slice_from_LastIndex hostStr H) as [rest ->].
  now rewrite ParseInt_colon.
Qed.

(** Whenever parsing succeeds, the host had no colon: the host name is the
    whole target host and the port is the "no port" value 0. *)
Lemma extractHostPort_ok (hostStr hostName : string) (port : Z) :
  extractHostPort hostStr = (hostName, port, None) ->
  strings.LastIndex hostStr ":" = -1 /\ hostName = hostStr /\ port = 0.
Proof.
  intros H. destruct (Z.eq_dec (strings.LastIndex hostStr ":") (-1)) as [E | E].
  - rewrite (extractHostPort_no_colon _ E) in H. inversion H; subst. auto.
  - rewrite (extractHostPort_colon _ E) in H. discriminate.
Qed.

(** ** The rule loop *)

Definition no_match (reqHost : string) (r : pb.Adhoc) : Prop :=
  hostMatches reqHost (pb.DnsNameMatcher r) = false.

(** A lookup that, when it reports no error, gives at least one address. *)
Definition lookup_nonempty (lookup : string -> list string * option string) : Prop :=
  forall h addrs, lookup h = (addrs, None) -> addrs <> [].

Definition PortNotAllowed (port : Z) : error :=
  NewError http.StatusBadRequest (Sprintf "port %d is not allowed" (ArgInt port)).

(** What [Address] does with a rule that matched, once the port to check
    is known. *)
Definition after_match (lookup : string -> list string * option string)
           (reqHost hostName : string) (port pfr : Z)
           (portRule : option pb.Adhoc_Port) (rest : list pb.Adhoc)
  : go (string * option error) :=
  ok <- portAllowed pfr portRule ;;
  if negb ok then Return (EmptyString, Some (PortNotAllowed pfr))
  else
    res <- resolveHost lookup hostName ;;
    match snd res with
    | Some _ => Return (net.JoinHostPort (fst res) (strconv.FormatInt pfr), None)
    | None => Address_loop lookup reqHost hostName port rest
    end.

Section LoopFacts.

Variable lookup : string -> list string * option string.
Variables reqHost hostName : string.
Variable port : Z.

Lemma Address_loop_skip (pre rs : list pb.Adhoc) :
  Forall (no_match reqHost) pre ->
  Address_loop lookup reqHost hostName port (pre ++ rs)
  = Address_loop lookup reqHost hostName port rs.
Proof.
  induction 1 as [| r pre Hr _ IH]; [reflexivity |].
  cbn [app Address_loop]. unfold no_match in Hr. now rewrite Hr.
Qed.

Lemma Address_loop_match (rule : pb.Adhoc) (rs : list pb.Adhoc) :
  hostMatches reqHost (pb.DnsNameMatcher rule) = true ->
  Address_loop lookup reqHost hostName port (rule :: rs)
  = (pfr <- portForRule port rule ;;
     after_match lookup reqHost hostName port pfr (pb.Port rule) rs).
Proof. intros H. cbn [Address_loop]. now rewrite H. Qed.

End LoopFacts.

Lemma Address_parsed (lookup : string -> list string * option string)
      (a : addresser) (req : Request) :
  strings.LastIndex (URL_Host req) ":" = -1 ->
  Address lookup a req
  = Address_loop lookup (URL_Host req) (URL_Host req) 0 (rules a).
Proof.
  intros H. unfold Address. now rewrite (extractHostPort_no_colon _ H).
Qed.

Lemma Address_malformed (lookup : string -> list string * option string)
      (a : addresser) (req : Request) :
  strings.LastIndex (URL_Host req) ":" <> -1 ->
  Address lookup a req
  = Return (EmptyString, Some (MalformedPort
                        (slice_from (URL_Host req) (strings.LastIndex (URL_Host req) ":")))).
Proof.
  intros H. unfold Address. now rewrite (extractHostPort_colon _ H).
Qed.

(** ** Configurations and lookups of the scenarios *)

(** The rule of the integration suite: [*.pods.test.local], ports
    1024-65535. *)
Definition podsRule : pb.Adhoc :=
  pb.mkAdhoc "*.pods.test.local" (Some (pb.mkPort 0 [] [pb.mkRange 1024 65535])).

(** A rule with an exact matcher, so that a request can match it. *)
Definition dbRule : pb.Adhoc :=
  pb.mkAdhoc "db.test.local" (Some (pb.mkPort 8080 [] [pb.mkRange 1024 65535])).

(** A lookup that answers every name with the same result. *)
Definition fixedLookup (addrs : list string) (err : option string)
  : string -> list string * option string :=
  fun _ => (addrs, err).

(** ** The forward-proxy scenario *)

(** C1: the scenario of the specification, rule [*.pods.test.local] with
    ports 1024-65535, target host [10-0-0-5.pods.test.local:9000] and a
    lookup answering 10.0.0.5, should give the dial address
    [10.0.0.5:9000].  The code returns the malformed-port error instead:
    the port text handed to [ParseInt] still carries the colon.  Without
    the port the same request finds no rule at all. *)
Theorem C1_scenario_is_rejected :
  Address (fixedLookup ["10.0.0.5"] None) (NewAddresser [podsRule])
          (mkRequest "10-0-0-5.pods.test.local:9000")
  = Return (EmptyString, Some (MalformedPort ":9000"))
  /\ Address (fixedLookup ["10.0.0.5"] None) (NewAddresser [podsRule])
             (mkRequest "10-0-0-5.pods.test.local")
     = Return (EmptyString, Some ErrRouteNotFound).
Proof. split; reflexivity. Qed.

(** C2: for a request that a rule matches and whose port the rule allows,
    a successful lookup should give the dial address and a failed lookup
    the resolution error.  The code has the two outcomes the other way
    round: after a successful lookup the loop goes on to the next rule and
    ends in [ErrRouteNotFound], after a failed lookup it returns a dial
    address with an empty host and no error. *)
Theorem C2_lookup_outcomes_inverted :
  Address (fixedLookup ["10.0.0.5"] None) (NewAddresser [dbRule])
          (mkRequest "db.test.local")
  = Return (EmptyString, Some ErrRouteNotFound)
  /\ Address (fixedLookup [] (Some "no such host")) (NewAddresser [dbRule])
             (mkRequest "db.test.local")
     = Return (":8080", None).
Proof. split; reflexivity. Qed.

(** The same for every matched request: what follows a lookup without
    error, and what follows a lookup error. *)
Lemma after_match_lookup_ok (lookup : string -> list string * option string)
      (reqHost hostName : string) (port pfr : Z) (p : pb.Adhoc_Port)
      (rest : list pb.Adhoc) (a0 : string) (addrs : list string) :
  portAllowed pfr (Some p) = Return true ->
  lookup hostName = (a0 :: addrs, None) ->
  after_match lookup reqHost hostName port pfr (Some p) rest
  = Address_loop lookup reqHost hostName port rest.
Proof.
  intros Hok Hl. unfold after_match, resolveHost. rewrite Hok, Hl. reflexivity.
Qed.

Lemma after_match_lookup_error (lookup : string -> list string * option string)
      (reqHost hostName : string) (port pfr : Z) (p : pb.Adhoc_Port)
      (rest : list pb.Adhoc) (addrs : list string) (e : string) :
  portAllowed pfr (Some p) = Return true ->
  lookup hostName = (addrs, Some e) ->
  after_match lookup reqHost hostName port pfr (Some p) rest
  = Return (net.JoinHostPort EmptyString (strconv.FormatInt pfr), None).
Proof.
  intros Hok Hl. unfold after_match, resolveHost. rewrite Hok, Hl. reflexivity.
Qed.

(** ** Host matching *)

Lemma hostMatches_wildcard (host rest : string) :
  hostMatches host (String "*" rest) = true <-> host = rest.
Proof. cbn. apply String.eqb_eq. Qed.

(** C3: the matcher [*.pods.test.local] should match
    [foo.pods.test.local] and neither [pods.test.local] nor
    [foo.other.local].  In the code it matches none of the three: after
    the star is dropped the rest is compared for equality, so the only
    host it matches is [.pods.test.local], and a request for
    [foo.pods.test.local] finds no rule. *)
Theorem C3_wildcard_matches_only_its_suffix :
  hostMatches "foo.pods.test.local" "*.pods.test.local" = false
  /\ hostMatches "pods.test.local" "*.pods.test.local" = false
  /\ hostMatches "foo.other.local" "*.pods.test.local" = false
  /\ (forall host,
        hostMatches host "*.pods.test.local" = true <-> host = ".pods.test.local")
  /\ (forall lookup,
        Address lookup (NewAddresser [podsRule]) (mkRequest "foo.pods.test.local")
        = Return (EmptyString, Some ErrRouteNotFound)).
Proof.
  repeat split; try reflexivity; apply hostMatches_wildcard.
Qed.

(** C4: a target host without a colon parses to the whole string and no
    port; one with a colon and a numeric port should parse to the host
    name and that port.  In the code every target host with a colon
    fails with the malformed-port error, numeric port or not. *)
Theorem C4_port_text_keeps_colon :
  extractHostPort "a.local:80" = (EmptyString, 0, Some (MalformedPort ":80"))
  /\ extractHostPort "a.local" = ("a.local", 0, None)
  /\ (forall hostStr,
        exists hostName port err,
          extractHostPort hostStr = (hostName, port, err) /\
          (err = None <-> strings.LastIndex hostStr ":" = -1)).
Proof.
  split; [reflexivity | split; [reflexivity |]].
  intros hostStr.
  destruct (Z.eq_dec (strings.LastIndex hostStr ":") (-1)) as [E | E].
  - rewrite (extractHostPort_no_colon _ E). do 3 eexists. split; [reflexivity |].
    split; auto.
  - rewrite (extractHostPort_colon _ E). do 3 eexists. split; [reflexivity |].
    split; [discriminate | contradiction].
Qed.

(** ** Port authorization *)

Lemma inAllowed_In (uPort : Z) (ps : list Z) :
  inAllowed uPort ps = true <-> In uPort ps.
Proof.
  induction ps as [| p ps IH]; cbn; [split; [discriminate | contradiction] |].
  destruct (Z.eqb_spec p uPort) as [E | N].
  - split; auto.
  - rewrite IH. split; [auto | intros [E | H]; [contradiction | exact H]].
Qed.

Lemma inAllowedRanges_In (uPort : Z) (rs : list pb.Adhoc_Port_Range) :
  inAllowedRanges uPort rs = true <->
  exists r, In r rs /\ pb.From r <= uPort <= pb.To r.
Proof.
  induction rs as [| r rs IH]; cbn.
  - split; [discriminate | intros [r [[] _]]].
  - destruct ((pb.From r <=? uPort) && (uPort <=? pb.To r)) eqn:E.
    + apply andb_true_iff in E. split; [intros _ | reflexivity].
      exists r. split; [now left | lia].
    + rewrite IH. split.
      * intros [r' [Hin Hr]]. exists r'. split; [now right | exact Hr].
      * intros [r' [[<- | Hin] Hr]]; [| exists r'; now split].
        apply andb_false_iff in E. lia.
Qed.

(** C6: with ranges [1024,65535] and no explicit ports, port 8080 is
    accepted and port 80 rejected; with the explicit port 443 alone, port
    8443 is rejected.  For every port rule the check always answers, and
    accepts exactly the ports that are listed or lie within a range, both
    ends included (the port compared as [uint32]). *)
Theorem C6_port_authorization :
  portAllowed 8080 (Some (pb.mkPort 0 [] [pb.mkRange 1024 65535])) = Return true
  /\ portAllowed 80 (Some (pb.mkPort 0 [] [pb.mkRange 1024 65535])) = Return false
  /\ portAllowed 8443 (Some (pb.mkPort 0 [443] [])) = Return false
  /\ portAllowed 1024 (Some (pb.mkPort 0 [] [pb.mkRange 1024 65535])) = Return true
  /\ portAllowed 65535 (Some (pb.mkPort 0 [] [pb.mkRange 1024 65535])) = Return true
  /\ (forall port portRule,
        exists ok, portAllowed port (Some portRule) = Return ok /\
          (ok = true <->
           In (uint32 port) (pb.Allowed portRule) \/
           exists r, In r (pb.AllowedRanges portRule) /\
                     pb.From r <= uint32 port <= pb.To r)).
Proof.
  repeat (split; [reflexivity |]).
  intros port portRule. unfold portAllowed.
  destruct (inAllowed (uint32 port) (pb.Allowed portRule)) eqn:A.
  - exists true. split; [reflexivity |]. split; [intros _ | reflexivity].
    left. now apply inAllowed_In.
  - destruct (inAllowedRanges (uint32 port) (pb.AllowedRanges portRule)) eqn:R.
    + exists true. split; [reflexivity |]. split; [intros _ | reflexivity].
      right. now apply inAllowedRanges_In.
    + exists false. split; [reflexivity |]. split; [discriminate |].
      intros [H | H].
      * apply inAllowed_In in H. congruence.
      * apply inAllowedRanges_In in H. congruence.
Qed.

(** ** The effective port *)

(** The defaulting of lines 46-53: for a target host without a colon and
    the first rule that matches it, the port that is checked, reported
    and dialled is the rule's default port when that is not zero and 80
    when it is zero; lines 46-53 pass any other port value on as it is. *)
Lemma effective_port_defaulting
        (lookup : string -> list string * option string)
        (pre : list pb.Adhoc) (rule : pb.Adhoc) (p : pb.Adhoc_Port)
        (post : list pb.Adhoc) (host : string) :
  strings.LastIndex host ":" = -1 ->
  Forall (no_match host) pre ->
  hostMatches host (pb.DnsNameMatcher rule) = true ->
  pb.Port rule = Some p ->
  let eff := if pb.Default p =? 0 then 80 else pb.Default p in
  portForRule (snd (fst (extractHostPort host))) rule = Return eff
  /\ Address lookup (NewAddresser (pre ++ rule :: post)) (mkRequest host)
     = after_match lookup host host 0 eff (Some p) post
  /\ (forall port, port <> 0 -> portForRule port rule = Return port).
Proof.
  intros Hc Hpre Hm Hp eff.
  assert (E : portForRule 0 rule = Return eff).
  { unfold portForRule, eff. rewrite Hp. cbn.
    destruct (pb.Default p =? 0); reflexivity. }
  split; [| split].
  - now rewrite (extractHostPort_no_colon _ Hc).
  - rewrite Address_parsed by exact Hc. cbn [URL_Host rules].
    rewrite (Address_loop_skip _ _ _ _ _ _ Hpre), (Address_loop_match _ _ _ _ _ _ Hm).
    rewrite E, Hp. reflexivity.
  - intros port Hport. unfold portForRule.
    destruct (Z.eqb_spec port 0); [contradiction | reflexivity].
Qed.

(** The rules of the port scenarios: the first one matches the target
    host with its port, as [hostMatches] is given [req.URL.Host]. *)
Definition db8080Rule : pb.Adhoc :=
  pb.mkAdhoc "db.test.local:8080" (Some (pb.mkPort 9000 [8080] [])).

Definition db9000Rule : pb.Adhoc :=
  pb.mkAdhoc "db.test.local" (Some (pb.mkPort 9000 [9000] [])).

Definition db80Rule : pb.Adhoc :=
  pb.mkAdhoc "db.test.local" (Some (pb.mkPort 0 [80] [])).

(** C7: without an explicit port the effective port should be the rule's
    default when that is not zero and 80 otherwise, and a port supplied
    by the request should be used unchanged.  The defaulting is what the
    code does: the port-less request is dialled on 9000 under a rule with
    default 9000 and on 80 under a rule with default 0.  A supplied port
    is never used: the request for [db.test.local:8080], under a rule that
    matches it and allows port 8080, is answered with the malformed-port
    error, whatever the lookup does, because the port text handed to
    [ParseInt] still carries the colon. *)
Theorem C7_supplied_port_is_rejected :
  hostMatches "db.test.local:8080" (pb.DnsNameMatcher db8080Rule) = true
  /\ portAllowed 8080 (pb.Port db8080Rule) = Return true
  /\ extractHostPort "db.test.local:8080"
     = (EmptyString, 0, Some (MalformedPort ":8080"))
  /\ Address (fixedLookup [] (Some "no such host")) (NewAddresser [db8080Rule])
             (mkRequest "db.test.local:8080")
     = Return (EmptyString, Some (MalformedPort ":8080"))
  /\ Address (fixedLookup ["10.0.0.5"] None) (NewAddresser [db8080Rule])
             (mkRequest "db.test.local:8080")
     = Return (EmptyString, Some (MalformedPort ":8080"))
  /\ Address (fixedLookup [] (Some "no such host")) (NewAddresser [db9000Rule])
             (mkRequest "db.test.local")
     = Return (":9000", None)
  /\ Address (fixedLookup [] (Some "no such host")) (NewAddresser [db80Rule])
             (mkRequest "db.test.local")
     = Return (":80", None).
Proof. repeat split. Qed.

(** ** Rules that never match *)

Lemma Address_loop_drop_empty (lookup : string -> list string * option string)
      (reqHost hostName : string) (port : Z)
      (portRule : option pb.Adhoc_Port) (post pre : list pb.Adhoc) :
  Address_loop lookup reqHost hostName port (pre ++ pb.mkAdhoc EmptyString portRule :: post)
  = Address_loop lookup reqHost hostName port (pre ++ post).
Proof.
  induction pre as [| r pre IH]; [reflexivity |].
  cbn [app Address_loop]. rewrite IH. reflexivity.
Qed.

(** C8: a rule whose [dnsNameMatcher] is empty matches no host, and
    [Address] gives the same result with the rule as without it. *)
Theorem C8_empty_matcher_never_matches :
  (forall host, hostMatches host EmptyString = false)
  /\ (forall lookup pre portRule post req,
        Address lookup (NewAddresser (pre ++ pb.mkAdhoc EmptyString portRule :: post)) req
        = Address lookup (NewAddresser (pre ++ post)) req).
Proof.
  split; [reflexivity |].
  intros. unfold Address. cbn [rules].
  destruct (extractHostPort (URL_Host req)) as [[h p] [e |]]; [reflexivity |].
  apply Address_loop_drop_empty.
Qed.

(** ** Panics *)

(** A rule entry that the loop passes over: present, and not matching. *)
Definition skipped (reqHost : string) (r : option raw.Adhoc) : Prop :=
  exists r0, r = Some r0 /\ hostMatches reqHost (raw.DnsNameMatcher r0) = false.

(** A rule entry that is present and carries a [Port] message whose
    ranges are all present. *)
Definition well_formed_rule (r : option raw.Adhoc) : Prop :=
  exists r0 p,
    r = Some r0 /\ raw.Port r0 = Some p /\
    Forall (fun x => x <> None) (raw.AllowedRanges p).

Definition well_formed (a : raw.addresser) : Prop :=
  Forall well_formed_rule (raw.rules a).

Lemma raw_inAllowedRanges_present (uPort : Z) (rs : list (option pb.Adhoc_Port_Range)) :
  Forall (fun x => x <> None) rs ->
  exists b, raw.inAllowedRanges uPort rs = Return b.
Proof.
  induction 1 as [| [r |] rs Hr _ IH]; cbn [raw.inAllowedRanges].
  - now exists false.
  - destruct ((pb.From r <=? uPort) && (uPort <=? pb.To r)); [now exists true | exact IH].
  - contradiction.
Qed.

Lemma raw_inAllowedRanges_panic (uPort : Z) (rs : list (option pb.Adhoc_Port_Range))
      (q : panic) :
  raw.inAllowedRanges uPort rs = Panics q -> q = NilDereference.
Proof.
  induction rs as [| [r |] rs IH]; cbn [raw.inAllowedRanges]; intros H.
  - discriminate.
  - destruct ((pb.From r <=? uPort) && (uPort <=? pb.To r)); [discriminate | now apply IH].
  - now inversion H.
Qed.

Lemma raw_portAllowed_panic (port : Z) (portRule : option raw.Adhoc_Port) (q : panic) :
  raw.portAllowed port portRule = Panics q -> q = NilDereference.
Proof.
  unfold raw.portAllowed. destruct portRule as [p |]; [| intros H; now inversion H].
  destruct (inAllowed _ _); [discriminate | apply raw_inAllowedRanges_panic].
Qed.

Lemma raw_portForRule_panic (port : Z) (rule : raw.Adhoc) (q : panic) :
  raw.portForRule port rule = Panics q -> q = NilDereference.
Proof.
  unfold raw.portForRule. destruct (port =? 0); [| discriminate].
  destruct (raw.Port rule) as [p |]; [| intros H; now inversion H].
  destruct (negb (raw.Default p =? 0)); discriminate.
Qed.

Section RawLoopFacts.

Variable lookup : string -> list string * option string.
Variables reqHost hostName : string.
Variable port : Z.

Lemma raw_loop_skip (pre rs : list (option raw.Adhoc)) :
  Forall (skipped reqHost) pre ->
  raw.Address_loop lookup reqHost hostName port (pre ++ rs)
  = raw.Address_loop lookup reqHost hostName port rs.
Proof.
  induction 1 as [| r pre [r0 [-> Hr]] _ IH]; [reflexivity |].
  cbn [app raw.Address_loop]. now rewrite Hr.
Qed.


Lemma raw_loop_no_nil_panic (rs : list (option raw.Adhoc)) :
  Forall well_formed_rule rs ->
  raw.Address_loop lookup reqHost hostName port rs <> Panics NilDereference.
Proof.
  induction 1 as [| r rs [r0 [p [-> [Hp Hr]]]] _ IH]; cbn [raw.Address_loop];
    [discriminate |].
  destruct (hostMatches reqHost (raw.DnsNameMatcher r0)); cbn [negb]; [| exact IH].
  assert (K : forall pfr,
             (ok <- raw.portAllowed pfr (Some p) ;;
              if negb ok
              then Return (EmptyString,
                           Some (NewError http.StatusBadRequest
                                   (Sprintf "port %d is not allowed" (ArgInt pfr))))
              else
                res <- resolveHost lookup hostName ;;
                match snd res with
                | Some _ =>
                    Return (net.JoinHostPort (fst res) (strconv.FormatInt pfr), None)
                | None => raw.Address_loop lookup reqHost hostName port rs
                end) <> Panics NilDereference).
  { intros pfr.
    assert (B : exists b, raw.portAllowed pfr (Some p) = Return b).
    { unfold raw.portAllowed. destruct (inAllowed _ _); [now exists true |].
      now apply raw_inAllowedRanges_present. }
    destruct B as [b ->]. cbn [bind].
    destruct b; cbn [negb]; [| discriminate].
    unfold resolveHost.
    destruct (lookup hostName) as [[| a0 addrs] [e |]]; cbn [bind snd];
      try discriminate; exact IH. }
  unfold raw.portForRule. rewrite Hp.
  destruct (port =? 0); [destruct (negb (raw.Default p =? 0)) |]; cbn [bind]; apply K.
Qed.

Lemma raw_loop_index_panic (rs : list (option raw.Adhoc)) :
  raw.Address_loop lookup reqHost hostName port rs = Panics IndexOutOfRange ->
  lookup hostName = ([], None).
Proof.
  induction rs as [| [rule |] rs IH]; cbn [raw.Address_loop]; try discriminate.
  destruct (hostMatches reqHost (raw.DnsNameMatcher rule)); cbn [negb]; [| exact IH].
  destruct (raw.portForRule port rule) as [pfr | q] eqn:Hpfr; cbn [bind].
  - destruct (raw.portAllowed pfr (raw.Port rule)) as [[|] | q] eqn:Hok; cbn [bind negb].
    + unfold resolveHost.
      destruct (lookup hostName) as [[| a0 addrs] [e |]]; cbn [bind snd];
        try discriminate; [reflexivity | exact IH].
    + discriminate.
    + apply raw_portAllowed_panic in Hok. subst q. discriminate.
  - apply raw_portForRule_panic in Hpfr. subst q. discriminate.
Qed.

End RawLoopFacts.

Lemma raw_Address_parsed (lookup : string -> list string * option string)
      (a : raw.addresser) (req : Request) :
  strings.LastIndex (URL_Host req) ":" = -1 ->
  raw.Address lookup a req
  = raw.Address_loop lookup (URL_Host req) (URL_Host req) 0 (raw.rules a).
Proof.
  intros H. unfold raw.Address. now rewrite (extractHostPort_no_colon _ H).
Qed.

Lemma raw_Address_malformed (lookup : string -> list string * option string)
      (a : raw.addresser) (req : Request) :
  strings.LastIndex (URL_Host req) ":" <> -1 ->
  raw.Address lookup a req
  = Return (EmptyString,
            Some (MalformedPort
                    (slice_from (URL_Host req) (strings.LastIndex (URL_Host req) ":")))).
Proof.
  intros H. unfold raw.Address. now rewrite (extractHostPort_colon _ H).
Qed.

(** On a configuration without absent entries the two addressers
    agree. *)
Lemma raw_inAllowedRanges_of (uPort : Z) (rs : list pb.Adhoc_Port_Range) :
  raw.inAllowedRanges uPort (map Some rs) = Return (inAllowedRanges uPort rs).
Proof.
  induction rs as [| r rs IH]; cbn [map raw.inAllowedRanges inAllowedRanges];
    [reflexivity |].
  destruct ((pb.From r <=? uPort) && (uPort <=? pb.To r)); [reflexivity | exact IH].
Qed.

Lemma raw_portAllowed_of (port : Z) (portRule : option pb.Adhoc_Port) :
  raw.portAllowed port (option_map raw.of_port portRule) = portAllowed port portRule.
Proof.
  destruct portRule as [p |]; [| reflexivity].
  unfold raw.portAllowed, portAllowed. cbn [option_map raw.of_port raw.Allowed raw.AllowedRanges].
  destruct (inAllowed _ _); [reflexivity |].
  rewrite raw_inAllowedRanges_of. now destruct (inAllowedRanges _ _).
Qed.

Lemma raw_portForRule_of (port : Z) (rule : pb.Adhoc) :
  raw.portForRule port (raw.of_rule rule) = portForRule port rule.
Proof.
  unfold raw.portForRule, portForRule. cbn [raw.of_rule raw.Port].
  now destruct (pb.Port rule).
Qed.

Lemma raw_Address_of (lookup : string -> list string * option string)
      (a : addresser) (req : Request) :
  raw.Address lookup (raw_of_addresser a) req = Address lookup a req.
Proof.
  unfold raw.Address, Address.
  destruct (extractHostPort (URL_Host req)) as [[hostName port] [e |]]; [reflexivity |].
  cbn [raw_of_addresser raw.rules].
  induction (rules a) as [| rule rs IH]; [reflexivity |].
  cbn [map raw.Address_loop Address_loop].
  rewrite IH, raw_portForRule_of.
  cbn [raw.of_rule raw.DnsNameMatcher raw.Port].
  destruct (hostMatches (URL_Host req) (pb.DnsNameMatcher rule)); cbn [negb];
    [| reflexivity].
  destruct (portForRule port rule) as [pfr |]; cbn [bind]; [| reflexivity].
  now rewrite raw_portAllowed_of.
Qed.

Lemma raw_Address_no_nil_panic (lookup : string -> list string * option string)
      (a : raw.addresser) (req : Request) :
  well_formed a -> raw.Address lookup a req <> Panics NilDereference.
Proof.
  intros Hwf. unfold raw.Address.
  destruct (extractHostPort (URL_Host req)) as [[hostName port] [e |]];
    [discriminate |].
  now apply raw_loop_no_nil_panic.
Qed.




(** A nil entry of the rule list, or of the ranges of a rule whose
    ports are checked, panics as well: the conditions on the entries are
    needed. *)
Lemma nil_entries_panic (lookup : string -> list string * option string)
      (reqHost hostName : string) (port : Z) :
  (forall post, raw.Address_loop lookup reqHost hostName port (None :: post)
                = Panics NilDereference)
  /\ (forall p rest, raw.portAllowed p (Some (raw.mkPort 0 [] (None :: rest)))
                     = Panics NilDereference).
Proof. split; reflexivity. Qed.

(** C10: [resolveHost] takes the first address of the lookup result
    without looking at its length: an answer with no address and no error
    makes it panic with an index out of range.  [Address] then panics the
    same way whenever a rule matches, its port check passes and the lookup
    gives such an answer.  When a lookup without error always holds an
    address, [Address] never panics that way, and it returns for every
    request once every entry of the rule list is present and carries a
    [Port] message whose ranges are all present. *)
Theorem C10_empty_lookup_panics
        (lookup : string -> list string * option string) :
  (forall hostStr, lookup hostStr = ([], None) ->
                   resolveHost lookup hostStr = Panics IndexOutOfRange)
  /\ (forall a req pre rule post pfr,
        raw.rules a = (pre ++ Some rule :: post)%list ->
        strings.LastIndex (URL_Host req) ":" = -1 ->
        Forall (skipped (URL_Host req)) pre ->
        hostMatches (URL_Host req) (raw.DnsNameMatcher rule) = true ->
        raw.portForRule 0 rule = Return pfr ->
        raw.portAllowed pfr (raw.Port rule) = Return true ->
        lookup (URL_Host req) = ([], None) ->
        raw.Address lookup a req = Panics IndexOutOfRange)
  /\ (forall a req,
        lookup_nonempty lookup ->
        raw.Address lookup a req <> Panics IndexOutOfRange)
  /\ (forall a req,
        lookup_nonempty lookup -> well_formed a ->
        exists res, raw.Address lookup a req = Return res).
Proof.
  assert (Idx : forall a req, lookup_nonempty lookup ->
                              raw.Address lookup a req <> Panics IndexOutOfRange).
  { intros a req Hne H. unfold raw.Address in H.
    destruct (extractHostPort (URL_Host req)) as [[hostName port] [e |]];
      [discriminate |].
    apply raw_loop_index_panic in H. exact (Hne _ _ H eq_refl). }
  split; [| split; [| split]].
  - intros hostStr Hl. unfold resolveHost. now rewrite Hl.
  - intros a req pre rule post pfr Hr Hc Hpre Hm Hpfr Hok Hl.
    rewrite raw_Address_parsed by exact Hc. rewrite Hr.
    rewrite (raw_loop_skip _ _ _ _ _ _ Hpre). cbn [raw.Address_loop].
    rewrite Hm. cbn [negb]. rewrite Hpfr. cbn [bind]. rewrite Hok. cbn [bind negb].
    unfold resolveHost. now rewrite Hl.
  - exact Idx.
  - intros a req Hne Hwf.
    destruct (raw.Address lookup a req) as [res | q] eqn:E; [now exists res |].
    exfalso. destruct q.
    + exact (raw_Address_no_nil_panic lookup a req Hwf E).
    + exact (Idx a req Hne E).
Qed.

Lemma C10_empty_lookup_panics_witness :
  resolveHost (fixedLookup [] None) "db.test.local" = Panics IndexOutOfRange
  /\ raw.Address (fixedLookup [] None)
                 (raw_of_addresser (NewAddresser [podsRule; dbRule]))
                 (mkRequest "db.test.local")
     = Panics IndexOutOfRange
  /\ raw.Address (fixedLookup ["10.0.0.5"] None)
                 (raw_of_addresser (NewAddresser [podsRule; dbRule]))
                 (mkRequest "db.test.local")
     <> Panics IndexOutOfRange
  /\ exists res,
       raw.Address (fixedLookup ["10.0.0.5"] None)
                   (raw_of_addresser (NewAddresser [podsRule; dbRule]))
                   (mkRequest "db.test.local")
       = Return res.
Proof.
  assert (Hne : lookup_nonempty (fixedLookup ["10.0.0.5"] None)).
  { intros h l H. inversion H. discriminate. }
  assert (Hwf : well_formed (raw_of_addresser (NewAddresser [podsRule; dbRule]))).
  { repeat constructor.
    - eexists _, _. split; [reflexivity |]. split; [reflexivity |].
      constructor; [discriminate | constructor].
    - eexists _, _. split; [reflexivity |]. split; [reflexivity |].
      constructor; [discriminate | constructor]. }
  split; [| split; [| split]].
  - apply (proj1 (C10_empty_lookup_panics (fixedLookup [] None)) "db.test.local").
    reflexivity.
  - apply (proj1 (proj2 (C10_empty_lookup_panics (fixedLookup [] None)))
             (raw_of_addresser (NewAddresser [podsRule; dbRule]))
             (mkRequest "db.test.local")
             [Some (raw.of_rule podsRule)] (raw.of_rule dbRule) [] 8080).
    + reflexivity.
    + reflexivity.
    + constructor; [| constructor]. eexists. split; reflexivity.
    + reflexivity.
    + reflexivity.
    + reflexivity.
    + reflexivity.
  - apply (proj1 (proj2 (proj2 (C10_empty_lookup_panics (fixedLookup ["10.0.0.5"] None))))
             (raw_of_addresser (NewAddresser [podsRule; dbRule]))
             (mkRequest "db.test.local") Hne).
  - apply (proj2 (proj2 (proj2 (C10_empty_lookup_panics (fixedLookup ["10.0.0.5"] None))))
             (raw_of_addresser (NewAddresser [podsRule; dbRule]))
             (mkRequest "db.test.local") Hne Hwf).
Defined.

(** ** The director *)

(** C5: every run of the director first asks the router.  When the router
    answers with an error, the director returns that error and the trace
    holds the router call alone, so the pool is never asked.  When the
    router answers with a backend name, the pool is asked once, for that
    name, and the director returns the pool's connection, or the pool's
    error with no connection. *)
Theorem C5_director_dispatch
        (Context ClientConn err W : Type)
        (h : director.handler Context ClientConn err W)
        (ctx : Context) (fullMethodName : string) (w : W) :
  let '(beName, routeErr, w1) := h _ (director.Router_Route ctx fullMethodName) w in
  match routeErr with
  | Some e =>
      director.run h (director.New ctx fullMethodName) w
      = ((None, Some e), w1, [director.EvRoute ctx fullMethodName])
  | None =>
      let '(_, w2) :=
        h _ (director.AddFieldsFromMiddleware ctx ["proxy_backend"] [beName]) w1 in
      let '(cc, connErr, w3) := h _ (director.Pool_Conn beName) w2 in
      director.run h (director.New ctx fullMethodName) w
      = (match connErr with
         | Some e => (None, Some e)
         | None => (cc, None)
         end,
         w3,
         [director.EvRoute ctx fullMethodName;
          director.EvAddFields ctx ["proxy_backend"] [beName];
          director.EvConn beName])
  end.
Proof.
  unfold director.New. cbn [director.run director.event_of].
  destruct (h _ (director.Router_Route ctx fullMethodName) w)
    as [[beName [e |]] w1]; [reflexivity |].
  cbn [director.run director.event_of].
  destruct (h _ (director.AddFieldsFromMiddleware ctx ["proxy_backend"] [beName]) w1)
    as [[] w2].
  cbn [director.run director.event_of].
  destruct (h _ (director.Pool_Conn beName) w2) as [[cc [e |]] w3]; reflexivity.
Qed.

(** * Further properties of the addresser *)

(** ** Target hosts with and without a colon *)

Lemma prefix_colon_eqb (c : ascii) (s : string) :
  String.prefix ":" (String c s) = Ascii.eqb ":" c.
Proof.
  change (String.prefix ":" (String c s))
    with (if ascii_dec ":" c then String.prefix EmptyString s else false).
  destruct (ascii_dec ":" c) as [<- | N].
  - destruct s; reflexivity.
  - symmetry. now apply Ascii.eqb_neq.
Qed.

Lemma LastIndex_from_none (s : string) :
  forall i, net.contains_byte ":" s = false -> strings.LastIndex_from i s ":" = -1.
Proof.
  induction s as [| c s IH]; intros i H; [reflexivity |].
  cbn [net.contains_byte] in H. apply orb_false_iff in H. destruct H as [Hc Hs].
  cbn [strings.LastIndex_from]. rewrite (IH (i + 1) Hs), prefix_colon_eqb, Hc.
  reflexivity.
Qed.

Lemma LastIndex_from_some (s : string) :
  forall i, 0 <= i -> net.contains_byte ":" s = true ->
            i <= strings.LastIndex_from i s ":".
Proof.
  induction s as [| c s IH]; intros i Hi H; [discriminate |].
  cbn [strings.LastIndex_from].
  destruct (net.contains_byte ":" s) eqn:Hs.
  - specialize (IH (i + 1) ltac:(lia) eq_refl).
    destruct (Z.eqb_spec (strings.LastIndex_from (i + 1) s ":") (-1)); lia.
  - rewrite (LastIndex_from_none s (i + 1) Hs), Z.eqb_refl.
    cbn [net.contains_byte] in H. rewrite Hs, orb_false_r in H.
    rewrite prefix_colon_eqb, H. lia.
Qed.

(** [LastIndex] finds no colon exactly in the strings that hold none. *)
Lemma LastIndex_colon_iff (s : string) :
  strings.LastIndex s ":" = -1 <-> net.contains_byte ":" s = false.
Proof.
  unfold strings.LastIndex. split; intros H.
  - destruct (net.contains_byte ":" s) eqn:E; [| reflexivity].
    pose proof (LastIndex_from_some s 0 ltac:(lia) E). lia.
  - now apply LastIndex_from_none.
Qed.

Lemma contains_byte_app (c : ascii) (s t : string) :
  net.contains_byte c (s ++ t) = net.contains_byte c s || net.contains_byte c t.
Proof.
  induction s as [| d s IH]; [reflexivity |].
  cbn [append net.contains_byte]. now rewrite IH, orb_assoc.
Qed.

(** The last colon of [h ++ ":" ++ p], when [p] holds none, is the one
    between the two. *)
Lemma LastIndex_from_app (h p : string) :
  net.contains_byte ":" p = false ->
  forall i, 0 <= i ->
    strings.LastIndex_from i (h ++ String ":" p) ":" = i + Z.of_nat (String.length h).
Proof.
  intros Hp. induction h as [| c h IH]; intros i Hi.
  - cbn [append strings.LastIndex_from String.length].
    rewrite (LastIndex_from_none p (i + 1) Hp), Z.eqb_refl, prefix_colon_eqb.
    cbn [Ascii.eqb Bool.eqb Z.of_nat]. lia.
  - cbn [append strings.LastIndex_from String.length].
    rewrite (IH (i + 1) ltac:(lia)).
    destruct (Z.eqb_spec (i + 1 + Z.of_nat (String.length h)) (-1)); lia.
Qed.

Lemma substring_skip (h t : string) :
  String.substring (String.length h) (String.length t) (h ++ t) = t.
Proof.
  induction h as [| c h IH]; cbn [append String.length String.substring].
  - apply substring_all.
  - exact IH.
Qed.

Lemma length_app (s t : string) :
  String.length (s ++ t) = (String.length s + String.length t)%nat.
Proof. induction s as [| c s IH]; cbn; [reflexivity | now rewrite IH]. Qed.

Lemma slice_from_app (h t : string) :
  slice_from (h ++ t) (Z.of_nat (String.length h)) = t.
Proof.
  unfold slice_from. rewrite Nat2Z.id, length_app.
  replace (String.length h + String.length t - String.length h)%nat
    with (String.length t) by lia.
  apply substring_skip.
Qed.

(** X1: a target host of the form [h:p], with no colon in [p], is rejected
    with the 400 malformed-port error naming the text [:p], whatever the
    rules and the lookup are: no rule is inspected, so even a rule
    without a [Port] message does no harm, and nothing is resolved. *)
Theorem Address_colon_rejected
        (lookup : string -> list string * option string)
        (a : addresser) (h p : string) :
  net.contains_byte ":" p = false ->
  Address lookup a (mkRequest (h ++ String ":" p))
  = Return (EmptyString, Some (MalformedPort (String ":" p))).
Proof.
  intros Hp.
  assert (L : strings.LastIndex (h ++ String ":" p) ":" = Z.of_nat (String.length h)).
  { unfold strings.LastIndex. now rewrite (LastIndex_from_app h p Hp 0 ltac:(lia)). }
  rewrite Address_malformed; cbn [URL_Host]; [| rewrite L; lia].
  now rewrite L, slice_from_app.
Qed.

Lemma Address_colon_rejected_witness :
  Address http_integration.LookupAddr
          (NewAddresser [pb.mkAdhoc "127-0-0-1.pods.test.local:8081" None])
          (mkRequest "127-0-0-1.pods.test.local:8081")
  = Return (EmptyString, Some (MalformedPort ":8081")).
Proof.
  apply (Address_colon_rejected http_integration.LookupAddr
           (NewAddresser [pb.mkAdhoc "127-0-0-1.pods.test.local:8081" None])
           "127-0-0-1.pods.test.local" "8081").
  reflexivity.
Defined.

(** X2: when the target host holds no colon and no rule matches it, the
    list may be empty, [Address] answers [ErrRouteNotFound]; the lookup
    and the [Port] messages of the rules play no part. *)
Theorem Address_no_match_not_found
        (lookup : string -> list string * option string)
        (a : addresser) (req : Request) :
  net.contains_byte ":" (URL_Host req) = false ->
  Forall (no_match (URL_Host req)) (rules a) ->
  Address lookup a req = Return (EmptyString, Some ErrRouteNotFound).
Proof.
  intros Hc Hn. rewrite Address_parsed by now apply LastIndex_colon_iff.
  rewrite <- (app_nil_r (rules a)).
  now rewrite (Address_loop_skip _ _ _ _ _ _ Hn).
Qed.

Lemma Address_no_match_not_found_witness :
  Address (fixedLookup [] None)
          (NewAddresser [podsRule; pb.mkAdhoc "db.test.local" None])
          (mkRequest "foo.pods.test.local")
  = Return (EmptyString, Some ErrRouteNotFound).
Proof.
  apply (Address_no_match_not_found (fixedLookup [] None)
           (NewAddresser [podsRule; pb.mkAdhoc "db.test.local" None])
           (mkRequest "foo.pods.test.local")).
  - reflexivity.
  - constructor; [reflexivity | constructor; [reflexivity | constructor]].
Defined.

(** X3: the first rule that matches decides the port check.  When it
    rejects the effective port, [Address] answers the 400 error naming
    that port, whatever the lookup is and whatever rules follow, also when
    a later rule would allow the port. *)
Theorem Address_port_rejected
        (lookup : string -> list string * option string)
        (pre : list pb.Adhoc) (rule : pb.Adhoc) (p : pb.Adhoc_Port)
        (post : list pb.Adhoc) (host : string) :
  net.contains_byte ":" host = false ->
  Forall (no_match host) pre ->
  hostMatches host (pb.DnsNameMatcher rule) = true ->
  pb.Port rule = Some p ->
  let eff := if pb.Default p =? 0 then 80 else pb.Default p in
  portAllowed eff (Some p) = Return false ->
  Address lookup (NewAddresser (pre ++ rule :: post)) (mkRequest host)
  = Return (EmptyString, Some (PortNotAllowed eff)).
Proof.
  intros Hc Hpre Hm Hp eff Hno.
  rewrite Address_parsed by now apply LastIndex_colon_iff.
  cbn [URL_Host rules].
  rewrite (Address_loop_skip _ _ _ _ _ _ Hpre), (Address_loop_match _ _ _ _ _ _ Hm).
  unfold portForRule, after_match. rewrite Hp. cbn [Z.eqb bind].
  fold eff. replace (if negb (pb.Default p =? 0) then Return (pb.Default p) else Return 80)
    with (Return (A := Z) eff) by (unfold eff; destruct (pb.Default p =? 0); reflexivity).
  cbn [bind]. rewrite Hno. reflexivity.
Qed.

Lemma Address_port_rejected_witness :
  Address (fixedLookup ["10.0.0.5"] None)
          (NewAddresser [podsRule;
                         pb.mkAdhoc "db.test.local" (Some (pb.mkPort 0 [443] []));
                         pb.mkAdhoc "db.test.local" (Some (pb.mkPort 0 [80] []))])
          (mkRequest "db.test.local")
  = Return (EmptyString, Some (PortNotAllowed 80)).
Proof.
  apply (Address_port_rejected (fixedLookup ["10.0.0.5"] None)
           [podsRule] (pb.mkAdhoc "db.test.local" (Some (pb.mkPort 0 [443] [])))
           (pb.mkPort 0 [443] [])
           [pb.mkAdhoc "db.test.local" (Some (pb.mkPort 0 [80] []))]
           "db.test.local").
  - reflexivity.
  - constructor; [reflexivity | constructor].
  - reflexivity.
  - reflexivity.
  - reflexivity.
Defined.

(** ** What [Address] can return *)

(** The returns of the rule loop: the end of the list, a rejected port, or
    a dial address after a lookup error. *)
Lemma Address_loop_return_inv (lookup : string -> list string * option string)
      (reqHost hostName : string) (port : Z) (rs : list pb.Adhoc)
      (addr : string) (err : option error) :
  Address_loop lookup reqHost hostName port rs = Return (addr, err) ->
  (addr = EmptyString /\ err = Some ErrRouteNotFound) \/
  exists rule pfr,
    In rule rs /\ hostMatches reqHost (pb.DnsNameMatcher rule) = true /\
    portForRule port rule = Return pfr /\
    ((portAllowed pfr (pb.Port rule) = Return false /\
      addr = EmptyString /\ err = Some (PortNotAllowed pfr)) \/
     (portAllowed pfr (pb.Port rule) = Return true /\
      (exists addrs e, lookup hostName = (addrs, Some e)) /\
      addr = (":" ++ strconv.FormatInt pfr)%string /\ err = None)).
Proof.
  induction rs as [| rule rs IH]; cbn [Address_loop].
  - intros H. inversion H. now left.
  - assert (Tl : Address_loop lookup reqHost hostName port rs = Return (addr, err) ->
                 (addr = EmptyString /\ err = Some ErrRouteNotFound) \/
                 exists rule0 pfr,
                   In rule0 (rule :: rs) /\
                   hostMatches reqHost (pb.DnsNameMatcher rule0) = true /\
                   portForRule port rule0 = Return pfr /\
                   ((portAllowed pfr (pb.Port rule0) = Return false /\
                     addr = EmptyString /\ err = Some (PortNotAllowed pfr)) \/
                    (portAllowed pfr (pb.Port rule0) = Return true /\
                     (exists addrs e, lookup hostName = (addrs, Some e)) /\
                     addr = (":" ++ strconv.FormatInt pfr)%string /\ err = None))).
    { intros H. destruct (IH H) as [L | [r0 [pfr [Hin R]]]]; [now left | right].
      exists r0, pfr. split; [now right | exact R]. }
    destruct (hostMatches reqHost (pb.DnsNameMatcher rule)) eqn:Hm; cbn [negb];
      [| exact Tl].
    destruct (portForRule port rule) as [pfr |] eqn:Hpfr; cbn [bind]; [| discriminate].
    destruct (portAllowed pfr (pb.Port rule)) as [[|] |] eqn:Hok; cbn [bind negb];
      [| | discriminate].
    + unfold resolveHost.
      destruct (lookup hostName) as [addrs [e |]] eqn:Hl; cbn [bind snd fst].
      * intros H. inversion H. right. exists rule, pfr.
        split; [now left |]. split; [exact Hm |]. split; [exact Hpfr |].
        right. split; [exact Hok |]. split; [eauto |]. split; reflexivity.
      * destruct addrs as [| a0 addrs]; cbn [bind snd]; [discriminate | exact Tl].
    + intros H. inversion H. right. exists rule, pfr.
      split; [now left |]. split; [exact Hm |]. split; [exact Hpfr |].
      left. split; [exact Hok |]. split; reflexivity.
Qed.

(** X4: an error of [Address] never comes with an address, and it is one
    of three: the 400 malformed-port error, the 400 port-not-allowed
    error, or [ErrRouteNotFound].  The 502 error that [resolveHost] builds
    for a failed lookup is never returned. *)
Theorem Address_error_kinds
        (lookup : string -> list string * option string)
        (a : addresser) (req : Request) (addr : string) (e : error) :
  Address lookup a req = Return (addr, Some e) ->
  addr = EmptyString /\
  ((exists portPart, e = MalformedPort portPart) \/
   (exists pfr, e = PortNotAllowed pfr) \/
   e = ErrRouteNotFound) /\
  e <> NewError http.StatusBadGateway (Literal "cannot resolve host").
Proof.
  intros H.
  assert (K : addr = EmptyString /\
              ((exists portPart, e = MalformedPort portPart) \/
               (exists pfr, e = PortNotAllowed pfr) \/
               e = ErrRouteNotFound)).
  { destruct (Z.eq_dec (strings.LastIndex (URL_Host req) ":") (-1)) as [E | E].
    - rewrite (Address_parsed _ _ _ E) in H.
      apply Address_loop_return_inv in H.
      destruct H as [[-> He] | [rule [pfr [_ [_ [_ [[_ [-> He]] | [_ [_ [_ He]]]]]]]]]];
        [| | discriminate]; inversion He; eauto.
    - rewrite (Address_malformed _ _ _ E) in H. inversion H. eauto. }
  destruct K as [Ha K]. split; [exact Ha |]. split; [exact K |].
  destruct K as [[pp ->] | [[pfr ->] | ->]]; discriminate.
Qed.

Lemma Address_error_kinds_witness :
  EmptyString = EmptyString /\
  ((exists portPart, PortNotAllowed 80 = MalformedPort portPart) \/
   (exists pfr, PortNotAllowed 80 = PortNotAllowed pfr) \/
   PortNotAllowed 80 = ErrRouteNotFound) /\
  PortNotAllowed 80 <> NewError http.StatusBadGateway (Literal "cannot resolve host").
Proof.
  exact (Address_error_kinds (fixedLookup ["10.0.0.5"] None)
           (NewAddresser [pb.mkAdhoc "db.test.local" (Some (pb.mkPort 0 [443] []))])
           (mkRequest "db.test.local") EmptyString (PortNotAllowed 80) eq_refl).
Defined.

(** X5: an address returned by [Address] always has an empty host part.
    It is returned only for a target host without a colon, by a rule of
    the list that matches the host and allows the port, and only after
    the lookup of the host reported an error; it is the colon followed by
    the decimal port that the rule allowed. *)
Theorem Address_success_inv
        (lookup : string -> list string * option string)
        (a : addresser) (req : Request) (addr : string) :
  Address lookup a req = Return (addr, None) ->
  net.contains_byte ":" (URL_Host req) = false /\
  exists rule pfr,
    In rule (rules a) /\
    hostMatches (URL_Host req) (pb.DnsNameMatcher rule) = true /\
    portForRule 0 rule = Return pfr /\
    portAllowed pfr (pb.Port rule) = Return true /\
    (exists addrs e, lookup (URL_Host req) = (addrs, Some e)) /\
    addr = (":" ++ strconv.FormatInt pfr)%string.
Proof.
  intros H.
  destruct (Z.eq_dec (strings.LastIndex (URL_Host req) ":") (-1)) as [E | E].
  - split; [now apply LastIndex_colon_iff |].
    rewrite (Address_parsed _ _ _ E) in H.
    apply Address_loop_return_inv in H.
    destruct H as [[_ He] | [rule [pfr [Hin [Hm [Hp [[_ [_ He]] | [Hok [Hl [Ha _]]]]]]]]]];
      try discriminate.
    exists rule, pfr. auto 10.
  - rewrite (Address_malformed _ _ _ E) in H. discriminate.
Qed.

Lemma Address_success_inv_witness :
  net.contains_byte ":" "db.test.local" = false /\
  exists rule pfr,
    In rule [dbRule] /\
    hostMatches "db.test.local" (pb.DnsNameMatcher rule) = true /\
    portForRule 0 rule = Return pfr /\
    portAllowed pfr (pb.Port rule) = Return true /\
    (exists addrs e,
        fixedLookup [] (Some "no such host") "db.test.local" = (addrs, Some e)) /\
    ":8080" = (":" ++ strconv.FormatInt pfr)%string.
Proof.
  exact (Address_success_inv (fixedLookup [] (Some "no such host"))
           (NewAddresser [dbRule]) (mkRequest "db.test.local") ":8080" eq_refl).
Defined.

(** ** Rule lists and lookups *)

Lemma Address_loop_app (lookup : string -> list string * option string)
      (reqHost hostName : string) (port : Z) (rs1 rs2 : list pb.Adhoc) :
  Address_loop lookup reqHost hostName port (rs1 ++ rs2)
  = match Address_loop lookup reqHost hostName port rs1 with
    | Return (_, Some ErrRouteNotFound) =>
        Address_loop lookup reqHost hostName port rs2
    | r => r
    end.
Proof.
  induction rs1 as [| rule rs1 IH]; [reflexivity |].
  cbn [app Address_loop].
  destruct (hostMatches reqHost (pb.DnsNameMatcher rule)); cbn [negb]; [| exact IH].
  destruct (portForRule port rule) as [pfr |]; cbn [bind]; [| reflexivity].
  destruct (portAllowed pfr (pb.Port rule)) as [[|] |]; cbn [bind negb];
    [| reflexivity | reflexivity].
  destruct (resolveHost lookup hostName) as [[ip [e |]] |]; cbn [bind snd];
    [reflexivity | exact IH | reflexivity].
Qed.

(** X6: the rules of two lists put one after the other are tried as two
    addressers in turn: the second one is asked exactly when the first one
    ends in [ErrRouteNotFound], and any other outcome of the first one, an
    address, another error or a panic, is final. *)
Theorem Address_app (lookup : string -> list string * option string)
        (rs1 rs2 : list pb.Adhoc) (req : Request) :
  Address lookup (NewAddresser (rs1 ++ rs2)) req
  = match Address lookup (NewAddresser rs1) req with
    | Return (_, Some ErrRouteNotFound) => Address lookup (NewAddresser rs2) req
    | r => r
    end.
Proof.
  unfold Address. cbn [rules].
  destruct (extractHostPort (URL_Host req)) as [[hostName port] [e |]].
  - destruct e; reflexivity.
  - apply Address_loop_app.
Qed.

Lemma Address_loop_lookup_ext (lookup1 lookup2 : string -> list string * option string)
      (reqHost hostName : string) (port : Z) (rs : list pb.Adhoc) :
  lookup1 hostName = lookup2 hostName ->
  Address_loop lookup1 reqHost hostName port rs
  = Address_loop lookup2 reqHost hostName port rs.
Proof.
  intros H.
  assert (R : resolveHost lookup1 hostName = resolveHost lookup2 hostName)
    by (unfold resolveHost; now rewrite H).
  induction rs as [| rule rs IH]; [reflexivity |].
  cbn [Address_loop]. now rewrite IH, R.
Qed.

(** X7: the only name [Address] ever resolves is the target host of the
    request: two lookup functions that answer alike for that host give the
    same outcome, whatever they answer for other names. *)
Theorem Address_resolves_only_request_host
        (lookup1 lookup2 : string -> list string * option string)
        (a : addresser) (req : Request) :
  lookup1 (URL_Host req) = lookup2 (URL_Host req) ->
  Address lookup1 a req = Address lookup2 a req.
Proof.
  intros H.
  destruct (Z.eq_dec (strings.LastIndex (URL_Host req) ":") (-1)) as [E | E].
  - rewrite !Address_parsed by exact E. now apply Address_loop_lookup_ext.
  - now rewrite !Address_malformed by exact E.
Qed.

Lemma Address_resolves_only_request_host_witness :
  Address (fun h => if String.eqb h "db.test.local"
                    then ([], Some "no such host") else (["10.0.0.5"], None))
          (NewAddresser [dbRule]) (mkRequest "db.test.local")
  = Address (fixedLookup [] (Some "no such host"))
            (NewAddresser [dbRule]) (mkRequest "db.test.local").
Proof.
  apply (Address_resolves_only_request_host
           (fun h => if String.eqb h "db.test.local"
                     then ([], Some "no such host") else (["10.0.0.5"], None))
           (fixedLookup [] (Some "no such host"))
           (NewAddresser [dbRule]) (mkRequest "db.test.local")).
  reflexivity.
Defined.

(** ** More on host matching and ports *)

(** X8: a matcher matches at most one host: two hosts accepted by the same
    matcher are the same string, with or without a leading star. *)
Theorem hostMatches_at_most_one_host (h1 h2 matcher : string) :
  hostMatches h1 matcher = true ->
  hostMatches h2 matcher = true ->
  h1 = h2.
Proof.
  unfold hostMatches. destruct matcher as [| c rest]; [discriminate |].
  destruct (negb (Ascii.eqb c "*")); intros H1 H2;
    apply String.eqb_eq in H1, H2; congruence.
Qed.

Lemma hostMatches_at_most_one_host_witness :
  ".pods.test.local" = ".pods.test.local".
Proof.
  apply (hostMatches_at_most_one_host ".pods.test.local" ".pods.test.local"
           "*.pods.test.local"); reflexivity.
Defined.

Lemma portAllowed_true_iff (port : Z) (p : pb.Adhoc_Port) :
  portAllowed port (Some p) = Return true <->
  In (uint32 port) (pb.Allowed p) \/
  exists r, In r (pb.AllowedRanges p) /\ pb.From r <= uint32 port <= pb.To r.
Proof.
  unfold portAllowed. rewrite <- inAllowed_In, <- inAllowedRanges_In.
  destruct (inAllowed _ _); [| destruct (inAllowedRanges _ _)];
    split; auto; try discriminate; intros [H | H]; discriminate.
Qed.

Lemma portAllowed_some (port : Z) (p : pb.Adhoc_Port) :
  portAllowed port (Some p) = Return true \/ portAllowed port (Some p) = Return false.
Proof.
  unfold portAllowed.
  destruct (inAllowed _ _); [| destruct (inAllowedRanges _ _)]; auto.
Qed.

(** X9: a port rule without explicit ports whose ranges all have their
    upper end below their lower end, in particular a rule without any
    range, allows no port at all. *)
Theorem portAllowed_denies_by_default (port : Z) (p : pb.Adhoc_Port) :
  pb.Allowed p = [] ->
  Forall (fun r => pb.To r < pb.From r) (pb.AllowedRanges p) ->
  portAllowed port (Some p) = Return false.
Proof.
  intros Ha Hr. destruct (portAllowed_some port p) as [T | F]; [| exact F].
  apply portAllowed_true_iff in T. rewrite Ha in T. cbn [In] in T.
  destruct T as [[] | [r [Hin Hb]]].
  rewrite Forall_forall in Hr. specialize (Hr r Hin). cbn beta in Hr. lia.
Qed.

Lemma portAllowed_denies_by_default_witness :
  portAllowed 8080 (Some (pb.mkPort 8080 [] [pb.mkRange 65535 1024])) = Return false.
Proof.
  apply (portAllowed_denies_by_default 8080 (pb.mkPort 8080 [] [pb.mkRange 65535 1024])).
  - reflexivity.
  - constructor; [cbn; lia | constructor].
Defined.

(** X10: widening a port rule never revokes a port: a port allowed by a
    rule is allowed by every rule that lists at least the same ports and
    ranges, in any order and with repetitions. *)
Theorem portAllowed_monotone (port : Z) (p q : pb.Adhoc_Port) :
  incl (pb.Allowed p) (pb.Allowed q) ->
  incl (pb.AllowedRanges p) (pb.AllowedRanges q) ->
  portAllowed port (Some p) = Return true ->
  portAllowed port (Some q) = Return true.
Proof.
  intros Ia Ir H. apply portAllowed_true_iff in H. apply portAllowed_true_iff.
  destruct H as [H | [r [Hin Hb]]]; [left; now apply Ia | right].
  exists r. split; [now apply Ir | exact Hb].
Qed.

Lemma portAllowed_monotone_witness :
  portAllowed 8080 (Some (pb.mkPort 0 [22; 443] [pb.mkRange 1 10; pb.mkRange 1024 65535]))
  = Return true.
Proof.
  apply (portAllowed_monotone 8080 (pb.mkPort 0 [443] [pb.mkRange 1024 65535])
           (pb.mkPort 0 [22; 443] [pb.mkRange 1 10; pb.mkRange 1024 65535])).
  - intros x [<- | []]. right. now left.
  - intros x [<- | []]. right. now left.
  - reflexivity.
Defined.

(** X11: the port is compared as [uint32]: ports that differ by a
    multiple of 2^32 are treated alike, so a negative port is checked as
    the large unsigned number it converts to. *)
Theorem portAllowed_wraps (port k : Z) (portRule : option pb.Adhoc_Port) :
  portAllowed (port + k * 2 ^ 32) portRule = portAllowed port portRule.
Proof.
  unfold portAllowed, uint32. now rewrite Z.mod_add by lia.
Qed.

(** X12: the port handed to the port check is never 0: the "no port"
    value of the request is always replaced, by the default port of the
    rule or by 80. *)
Theorem portForRule_never_zero (port : Z) (rule : pb.Adhoc) (pfr : Z) :
  portForRule port rule = Return pfr -> pfr <> 0.
Proof.
  unfold portForRule. destruct (Z.eqb_spec port 0) as [E | N].
  - destruct (pb.Port rule) as [p |]; [| discriminate].
    destruct (Z.eqb_spec (pb.Default p) 0) as [D | D]; cbn [negb];
      intros H; inversion H; lia.
  - intros H. inversion H. now subst.
Qed.

Lemma portForRule_never_zero_witness : 80 <> 0.
Proof.
  apply (portForRule_never_zero 0 podsRule 80). reflexivity.
Defined.

(** * Further properties of the director *)

(** X13: the director never returns a connection together with an error,
    also when the pool hands back both; a connection it returns always
    comes from a pool call; and the pool is only ever asked for the name
    that the router returned without error, after at most three calls in
    all. *)
Theorem director_result_shape
        (Context ClientConn err W : Type)
        (h : director.handler Context ClientConn err W)
        (ctx : Context) (fullMethodName : string) (w : W)
        (cc : option ClientConn) (e : option err) (w' : W)
        (t : list (director.event Context)) :
  director.run h (director.New ctx fullMethodName) w = ((cc, e), w', t) ->
  (e <> None -> cc = None)
  /\ (cc <> None -> exists beName, In (director.EvConn beName) t)
  /\ (forall beName,
        In (director.EvConn beName) t ->
        fst (h _ (director.Router_Route ctx fullMethodName) w) = (beName, None))
  /\ (List.length t <= 3)%nat.
Proof.
  unfold director.New. cbn [director.run director.event_of].
  destruct (h _ (director.Router_Route ctx fullMethodName) w)
    as [[beName [re |]] w1].
  - cbn [director.run]. intros H. inversion H; subst.
    repeat split; try (cbn; lia); try congruence.
    intros n [F | []]. discriminate F.
  - cbn [director.run director.event_of].
    destruct (h _ (director.AddFieldsFromMiddleware ctx ["proxy_backend"] [beName]) w1)
      as [[] w2].
    cbn [director.run director.event_of].
    destruct (h _ (director.Pool_Conn beName) w2) as [[pc [pe |]] w3];
      cbn [director.run]; intros H; inversion H; subst;
      (split; [congruence |]);
      (split; [intros _; exists beName; cbn; auto |]);
      (split; [| cbn; lia]);
      intros n [F | [F | [F | []]]]; try discriminate F;
      inversion F; reflexivity.
Qed.

(** A router that knows every method and a pool that hands back a
    connection and an error at once. *)
Definition sloppyPool : director.handler unit nat string unit :=
  fun X c w =>
    match c in director.call _ _ _ T return (T * unit)%type with
    | director.Router_Route _ _ => (("backend", None), w)
    | director.AddFieldsFromMiddleware _ _ _ => (tt, w)
    | director.Pool_Conn _ => ((Some 7%nat, Some "closing"), w)
    end.

Lemma director_result_shape_witness :
  (Some "closing" <> None -> @None nat = None)
  /\ (@None nat <> None ->
      exists beName,
        In (director.EvConn beName)
           [director.EvRoute tt "/pkg.Service/Method";
            director.EvAddFields tt ["proxy_backend"] ["backend"];
            director.EvConn "backend"])
  /\ (forall beName,
        In (director.EvConn beName)
           [director.EvRoute tt "/pkg.Service/Method";
            director.EvAddFields tt ["proxy_backend"] ["backend"];
            director.EvConn "backend"] ->
        fst (sloppyPool _ (director.Router_Route tt "/pkg.Service/Method") tt)
        = (beName, None))
  /\ (3 <= 3)%nat.
Proof.
  exact (director_result_shape unit nat string unit sloppyPool tt
           "/pkg.Service/Method" tt None (Some "closing") tt
           [director.EvRoute tt "/pkg.Service/Method";
            director.EvAddFields tt ["proxy_backend"] ["backend"];
            director.EvConn "backend"]
           eq_refl).
Defined.

(** * Properties of the helpers of the integration suite *)

Lemma targets_loop_firstn (resolvable : Z) (rest : list string) :
  forall i acc,
    http_integration.targets_loop i resolvable rest acc
    = (acc ++ map (http_integration.mkTarget http_integration.backendResolutionDuration)
                  (firstn (Z.to_nat (resolvable - i)) rest))%list.
Proof.
  induction rest as [| addr rest IH]; intros i acc;
    cbn [http_integration.targets_loop].
  - now rewrite firstn_nil, app_nil_r.
  - destruct (Z.ltb_spec i resolvable) as [L | G].
    + rewrite IH.
      replace (Z.to_nat (resolvable - i)) with (S (Z.to_nat (resolvable - (i + 1))))
        by lia.
      cbn [firstn map]. now rewrite <- app_assoc.
    + replace (Z.to_nat (resolvable - i)) with 0%nat by lia.
      cbn [firstn map]. now rewrite app_nil_r.
Qed.

(** X14: [targets] lists the first [resolvable] listeners, in the order
    they were added, each with the suite's resolution duration as TTL: all
    of them when [resolvable] is at least their number, none when it is
    zero or negative. *)
Theorem targets_are_first_resolvable (l : http_integration.localBackends) :
  http_integration.targets l
  = map (http_integration.mkTarget http_integration.backendResolutionDuration)
        (firstn (Z.to_nat (http_integration.resolvable l))
                (http_integration.listeners l))
  /\ Z.of_nat (List.length (http_integration.targets l))
     = Z.max 0 (Z.min (http_integration.resolvable l)
                      (Z.of_nat (List.length (http_integration.listeners l)))).
Proof.
  assert (E : http_integration.targets l
              = map (http_integration.mkTarget http_integration.backendResolutionDuration)
                    (firstn (Z.to_nat (http_integration.resolvable l))
                            (http_integration.listeners l))).
  { unfold http_integration.targets. rewrite targets_loop_firstn.
    now rewrite Z.sub_0_r. }
  split; [exact E |].
  rewrite E, length_map, length_firstn. lia.
Qed.

(** X15: [Lookup] for a registered backend whose resolvable count is not
    below the number of its listeners, as after [setResolvableCount(100)]
    in the suite, returns one target per listener, in order and without
    error, whatever the count was before. *)
Theorem Lookup_all_listeners
        (m : string -> option http_integration.localBackends)
        (domainName : string) (l : http_integration.localBackends) (count : Z) :
  m domainName = Some (http_integration.setResolvableCount l count) ->
  Z.of_nat (List.length (http_integration.listeners l)) <= count ->
  http_integration.Lookup m domainName
  = (map (http_integration.mkTarget 10000000) (http_integration.listeners l), None).
Proof.
  intros Hm Hc. unfold http_integration.Lookup. rewrite Hm.
  unfold http_integration.targets. rewrite targets_loop_firstn.
  cbn [http_integration.setResolvableCount http_integration.resolvable
       http_integration.listeners app].
  rewrite Z.sub_0_r, firstn_all2 by lia. reflexivity.
Qed.

Lemma Lookup_all_listeners_witness :
  http_integration.Lookup
    (fun name => if String.eqb name "_http._tcp.nonsecure.backends.test.local"
                 then Some (http_integration.setResolvableCount
                              (http_integration.mkLocalBackends 0
                                 ["127.0.0.1:40001"; "127.0.0.1:40002"]) 100)
                 else None)
    "_http._tcp.nonsecure.backends.test.local"
  = (map (http_integration.mkTarget 10000000)
         ["127.0.0.1:40001"; "127.0.0.1:40002"], None).
Proof.
  apply (Lookup_all_listeners
           (fun name => if String.eqb name "_http._tcp.nonsecure.backends.test.local"
                        then Some (http_integration.setResolvableCount
                                     (http_integration.mkLocalBackends 0
                                        ["127.0.0.1:40001"; "127.0.0.1:40002"]) 100)
                        else None)
           "_http._tcp.nonsecure.backends.test.local"
           (http_integration.mkLocalBackends 0 ["127.0.0.1:40001"; "127.0.0.1:40002"])
           100).
  - reflexivity.
  - cbn. lia.
Defined.

(** X16: with the ad-hoc rules of the integration suite no request is
    given an address, whatever the resolver answers, and the error is
    fixed by the target host alone: with a colon it is the malformed-port
    error naming the text from the last colon on; the one host the rule
    matches, [.pods.test.local], has the effective port 80, which the rule
    does not allow; every other host finds no rule. *)
Theorem suite_addresser_never_dials
        (lookup : string -> list string * option string) (req : Request) :
  Address lookup (NewAddresser http_integration.adhocConfig) req
  = Return (EmptyString,
            Some (if net.contains_byte ":" (URL_Host req)
                  then MalformedPort
                         (slice_from (URL_Host req)
                                     (strings.LastIndex (URL_Host req) ":"))
                  else if String.eqb (URL_Host req) ".pods.test.local"
                       then PortNotAllowed 80
                       else ErrRouteNotFound)).
Proof.
  destruct (net.contains_byte ":" (URL_Host req)) eqn:Hc.
  - apply Address_malformed. intros E. apply LastIndex_colon_iff in E. congruence.
  - rewrite Address_parsed by now apply LastIndex_colon_iff.
    cbn [rules http_integration.adhocConfig Address_loop pb.DnsNameMatcher].
    change (hostMatches (URL_Host req) "*.pods.test.local")
      with (String.eqb (URL_Host req) ".pods.test.local").
    destruct (String.eqb (URL_Host req) ".pods.test.local"); reflexivity.
Qed.

(** * Properties of the proxy auto-configuration *)

(** ** The strings an expression matches *)

Inductive lang : pac.regex -> string -> Prop :=
| L_Eps : lang pac.Eps EmptyString
| L_Lit (c : ascii) : lang (pac.Lit c) (String c EmptyString)
| L_NotLit (c d : ascii) : Ascii.eqb d c = false -> lang (pac.NotLit c) (String d EmptyString)
| L_Digit (d : ascii) : pac.is_digit d = true -> lang pac.Digit (String d EmptyString)
| L_Seq (r1 r2 : pac.regex) (s1 s2 : string) :
    lang r1 s1 -> lang r2 s2 -> lang (pac.Seq r1 r2) (s1 ++ s2)
| L_AltL (r1 r2 : pac.regex) (s : string) : lang r1 s -> lang (pac.Alt r1 r2) s
| L_AltR (r1 r2 : pac.regex) (s : string) : lang r2 s -> lang (pac.Alt r1 r2) s
| L_Star0 (r : pac.regex) : lang (pac.Star r) EmptyString
| L_StarS (r : pac.regex) (s1 s2 : string) :
    lang r s1 -> lang (pac.Star r) s2 -> lang (pac.Star r) (s1 ++ s2).

Fixpoint all_chars (f : ascii -> bool) (s : string) : bool :=
  match s with
  | EmptyString => true
  | String c s' => f c && all_chars f s'
  end.

Definition not_slash (c : ascii) : bool := negb (Ascii.eqb c "/").

Lemma append_empty_inv (s1 s2 : string) :
  (s1 ++ s2)%string = EmptyString -> s1 = EmptyString /\ s2 = EmptyString.
Proof. destruct s1; cbn; [auto | discriminate]. Qed.

Lemma append_empty_r (s : string) : (s ++ EmptyString)%string = s.
Proof. induction s as [| c s IH]; cbn; [reflexivity | now rewrite IH]. Qed.

Lemma append_assoc_s (s1 s2 s3 : string) :
  ((s1 ++ s2) ++ s3)%string = (s1 ++ (s2 ++ s3))%string.
Proof. induction s1 as [| c s1 IH]; cbn; [reflexivity | now rewrite IH]. Qed.

Lemma lang_Seq_inv (r1 r2 : pac.regex) (s : string) :
  lang (pac.Seq r1 r2) s ->
  exists s1 s2, s = (s1 ++ s2)%string /\ lang r1 s1 /\ lang r2 s2.
Proof. intros H. inversion H; subst. eauto. Qed.

Lemma lang_Alt_inv (r1 r2 : pac.regex) (s : string) :
  lang (pac.Alt r1 r2) s -> lang r1 s \/ lang r2 s.
Proof. intros H. inversion H; subst; auto. Qed.

Lemma nullable_lang (r : pac.regex) :
  pac.nullable r = true <-> lang r EmptyString.
Proof.
  induction r as [| | c | c | | r1 IH1 r2 IH2 | r1 IH1 r2 IH2 | r IH];
    cbn [pac.nullable]; split; intros H;
    try discriminate; try (now constructor); try (now inversion H).
  - apply andb_true_iff in H. destruct H as [H1 H2].
    change EmptyString with (EmptyString ++ EmptyString)%string.
    constructor; [now apply IH1 | now apply IH2].
  - apply lang_Seq_inv in H. destruct H as [s1 [s2 [E [L1 L2]]]].
    symmetry in E. apply append_empty_inv in E. destruct E as [-> ->].
    apply andb_true_iff. split; [now apply IH1 | now apply IH2].
  - apply orb_true_iff in H. destruct H as [H | H];
      [apply L_AltL; now apply IH1 | apply L_AltR; now apply IH2].
  - apply orb_true_iff. apply lang_Alt_inv in H.
    destruct H as [H | H]; [left; now apply IH1 | right; now apply IH2].
Qed.

(** A non-empty match of a star starts with a non-empty match of its
    body. *)
Lemma lang_star_cons (r : pac.regex) (a : ascii) (s : string) :
  lang (pac.Star r) (String a s) ->
  exists s1 s2, s = (s1 ++ s2)%string /\ lang r (String a s1) /\ lang (pac.Star r) s2.
Proof.
  intros H. remember (pac.Star r) as r0 eqn:Er. remember (String a s) as s0 eqn:Es.
  induction H as [| | | | | | | | r' s1 s2 H1 _ H2 IH2]; try discriminate.
  inversion Er; subst r'. destruct s1 as [| b s1].
  - cbn in Es. now apply IH2.
  - cbn in Es. inversion Es; subst. exists s1, s2. auto.
Qed.

Lemma deriv_lang (r : pac.regex) :
  forall a s, lang (pac.deriv a r) s <-> lang r (String a s).
Proof.
  induction r as [| | c | c | | r1 IH1 r2 IH2 | r1 IH1 r2 IH2 | r IH];
    intros a s; cbn [pac.deriv].
  - split; intros H; inversion H.
  - split; intros H; inversion H.
  - destruct (Ascii.eqb_spec a c) as [-> | N]; split; intros H; inversion H; subst.
    + constructor.
    + constructor.
    + contradiction.
  - destruct (Ascii.eqb a c) eqn:E; split; intros H; inversion H; subst.
    + congruence.
    + now constructor.
    + constructor.
  - destruct (pac.is_digit a) eqn:E; split; intros H; inversion H; subst.
    + now constructor.
    + constructor.
    + congruence.
  - assert (Fwd : forall t, lang (pac.Seq (pac.deriv a r1) r2) t ->
                            lang (pac.Seq r1 r2) (String a t)).
    { intros t H. apply lang_Seq_inv in H. destruct H as [s1 [s2 [-> [L1 L2]]]].
      change (String a (s1 ++ s2)) with (String a s1 ++ s2)%string.
      constructor; [now apply IH1 | exact L2]. }
    assert (Bwd : forall t, lang (pac.Seq r1 r2) (String a t) ->
                            lang (pac.Seq (pac.deriv a r1) r2) t \/
                            (lang r1 EmptyString /\ lang (pac.deriv a r2) t)).
    { intros t H. apply lang_Seq_inv in H. destruct H as [s1 [s2 [E [L1 L2]]]].
      destruct s1 as [| b s1]; cbn in E.
      - right. subst s2. split; [exact L1 | now apply IH2].
      - inversion E; subst. left. constructor; [now apply IH1 | exact L2]. }
    destruct (pac.nullable r1) eqn:N; split; intros H.
    + apply lang_Alt_inv in H. destruct H as [H | H]; [now apply Fwd |].
      change (String a s) with (EmptyString ++ String a s)%string.
      constructor; [now apply nullable_lang | now apply IH2].
    + destruct (Bwd s H) as [L | [_ R]]; [now apply L_AltL | now apply L_AltR].
    + now apply Fwd.
    + destruct (Bwd s H) as [L | [E _]]; [exact L |].
      apply nullable_lang in E. congruence.
  - split; intros H.
    + apply lang_Alt_inv in H.
      destruct H as [H | H]; [apply L_AltL; now apply IH1 | apply L_AltR; now apply IH2].
    + apply lang_Alt_inv in H.
      destruct H as [H | H]; [apply L_AltL; now apply IH1 | apply L_AltR; now apply IH2].
  - split; intros H.
    + apply lang_Seq_inv in H. destruct H as [s1 [s2 [-> [L1 L2]]]].
      change (String a (s1 ++ s2)) with (String a s1 ++ s2)%string.
      apply L_StarS; [now apply IH | exact L2].
    + apply lang_star_cons in H. destruct H as [s1 [s2 [-> [L1 L2]]]].
      constructor; [now apply IH | exact L2].
Qed.

(** [test] succeeds exactly when a prefix of the string matches. *)
Lemma test_lang (s : string) :
  forall r, pac.test r s = true <-> exists p q, s = (p ++ q)%string /\ lang r p.
Proof.
  induction s as [| a s IH]; intros r; cbn [pac.test].
  - rewrite orb_false_r, nullable_lang. split.
    + intros H. exists EmptyString, EmptyString. auto.
    + intros [p [q [E L]]]. symmetry in E. apply append_empty_inv in E.
      destruct E as [-> _]. exact L.
  - rewrite orb_true_iff, nullable_lang, IH. split.
    + intros [H | [p [q [-> L]]]].
      * exists EmptyString, (String a s). auto.
      * exists (String a p), q. split; [reflexivity | now apply deriv_lang].
    + intros [p [q [E L]]]. destruct p as [| b p]; [now left | right].
      cbn in E. inversion E; subst. exists p, q. split; [reflexivity |].
      now apply deriv_lang.
Qed.

Lemma lang_Str (t s : string) : lang (pac.Str t) s <-> s = t.
Proof.
  revert s. induction t as [| c t IH]; intros s; cbn [pac.Str]; split; intros H.
  - now inversion H.
  - subst. constructor.
  - apply lang_Seq_inv in H. destruct H as [s1 [s2 [-> [L1 L2]]]].
    inversion L1; subst. apply IH in L2. now subst.
  - subst. change (String c t) with (String c EmptyString ++ t)%string.
    constructor; [constructor | now apply IH].
Qed.

Section CharClass.

(** An expression [r] for one character of the class [f]. *)
Variable r : pac.regex.
Variable f : ascii -> bool.
Hypothesis r_class :
  forall s, lang r s <-> exists d, s = String d EmptyString /\ f d = true.

Lemma lang_star_class (s : string) :
  lang (pac.Star r) s <-> all_chars f s = true.
Proof.
  split.
  - intros H. remember (pac.Star r) as r0 eqn:Er.
    induction H as [| | | | | | | | r' s1 s2 H1 _ H2 IH2]; try discriminate.
    + reflexivity.
    + inversion Er; subst r'. apply r_class in H1. destruct H1 as [d [-> Hd]].
      cbn. now rewrite Hd, IH2.
  - induction s as [| c s IH]; cbn [all_chars]; intros H; [constructor |].
    apply andb_true_iff in H. destruct H as [Hc Hs].
    change (String c s) with (String c EmptyString ++ s)%string.
    constructor; [apply r_class; eauto | now apply IH].
Qed.

Lemma lang_plus_class (s : string) :
  lang (pac.Plus r) s <-> s <> EmptyString /\ all_chars f s = true.
Proof.
  unfold pac.Plus. split.
  - intros H. apply lang_Seq_inv in H. destruct H as [s1 [s2 [-> [L1 L2]]]].
    apply r_class in L1. destruct L1 as [d [-> Hd]]. apply lang_star_class in L2.
    split; [discriminate | cbn; now rewrite Hd, L2].
  - intros [Hne H]. destruct s as [| c s]; [contradiction |].
    cbn [all_chars] in H. apply andb_true_iff in H. destruct H as [Hc Hs].
    change (String c s) with (String c EmptyString ++ s)%string.
    constructor; [apply r_class; eauto | now apply lang_star_class].
Qed.

End CharClass.

Lemma NotLit_class (c : ascii) (s : string) :
  lang (pac.NotLit c) s <->
  exists d, s = String d EmptyString /\ negb (Ascii.eqb d c) = true.
Proof.
  split.
  - intros H. inversion H as [| | ? d E | | | | | |]; subst. exists d.
    split; [reflexivity | now rewrite E].
  - intros [d [-> H]]. constructor. now apply negb_true_iff.
Qed.

Lemma Digit_class (s : string) :
  lang pac.Digit s <-> exists d, s = String d EmptyString /\ pac.is_digit d = true.
Proof.
  split.
  - intros H. inversion H; subst. eauto.
  - intros [d [-> H]]. now constructor.
Qed.

(** The port part of a proxied URL: nothing, or a colon and digits. *)
Definition port_text (port : string) : Prop :=
  port = EmptyString \/
  exists ds, port = String ":" ds /\ ds <> EmptyString /\ all_chars pac.is_digit ds = true.

(** The URLs of the form [http://<name>.local<port>/<rest>]. *)
Definition local_url (url : string) : Prop :=
  exists name port rest,
    url = ("http://" ++ name ++ ".local" ++ port ++ "/" ++ rest)%string /\
    name <> EmptyString /\ all_chars not_slash name = true /\ port_text port.

Lemma lang_port (s : string) :
  lang (pac.Opt (pac.Seq (pac.Lit ":") (pac.Plus pac.Digit))) s <-> port_text s.
Proof.
  unfold pac.Opt, port_text. split.
  - intros H. apply lang_Alt_inv in H. destruct H as [H | H].
    + right. apply lang_Seq_inv in H. destruct H as [s1 [s2 [-> [L1 L2]]]].
      inversion L1; subst.
      apply (lang_plus_class pac.Digit pac.is_digit Digit_class) in L2.
      exists s2. split; [reflexivity | exact L2].
    + left. now inversion H.
  - intros [-> | [ds [-> H]]]; [apply L_AltR; constructor | apply L_AltL].
    change (String ":" ds) with (String ":" EmptyString ++ ds)%string.
    constructor; [constructor |].
    now apply (lang_plus_class pac.Digit pac.is_digit Digit_class).
Qed.

Lemma lang_regexp (p : string) :
  lang pac.regexp p <->
  exists name port,
    p = ("http://" ++ name ++ ".local" ++ port ++ "/")%string /\
    name <> EmptyString /\ all_chars not_slash name = true /\ port_text port.
Proof.
  unfold pac.regexp. split.
  - intros H.
    apply lang_Seq_inv in H. destruct H as [a [b [-> [La H]]]].
    apply lang_Seq_inv in H. destruct H as [name [c [-> [Ln H]]]].
    apply lang_Seq_inv in H. destruct H as [d [e [-> [Ld H]]]].
    apply lang_Seq_inv in H. destruct H as [port [g [-> [Lp Lg]]]].
    apply lang_Str in La, Ld. subst a d. inversion Lg; subst.
    apply (lang_plus_class (pac.NotLit "/") not_slash (NotLit_class "/")) in Ln.
    apply lang_port in Lp.
    exists name, port. split; [reflexivity | tauto].
  - intros [name [port [-> [Hne [Hn Hp]]]]].
    constructor; [now apply lang_Str |].
    constructor;
      [now apply (lang_plus_class (pac.NotLit "/") not_slash (NotLit_class "/")) |].
    constructor; [now apply lang_Str |].
    constructor; [now apply lang_port | constructor].
Qed.

Lemma test_regexp (url : string) : pac.test pac.regexp url = true <-> local_url url.
Proof.
  rewrite test_lang. unfold local_url. split.
  - intros [p [q [-> L]]]. apply lang_regexp in L.
    destruct L as [name [port [-> H]]]. exists name, port, q.
    split; [| exact H].
    now rewrite !append_assoc_s.
  - intros [name [port [rest [-> H]]]].
    exists ("http://" ++ name ++ ".local" ++ port ++ "/")%string, rest.
    split; [now rewrite !append_assoc_s |].
    apply lang_regexp. eauto.
Qed.

(** X17: [FindProxyForURL] sends a URL to the proxy exactly when it reads
    [http://<name>.local<port>/<rest>], where <name> is not empty and
    holds no slash and <port> is empty or a colon followed by at least one
    digit; every other URL is answered with [DIRECT].  The host argument
    plays no part. *)
Theorem FindProxyForURL_spec (url host : string) :
  (pac.FindProxyForURL url host = "PROXY localhost:8080" <-> local_url url)
  /\ (pac.FindProxyForURL url host = "DIRECT" <-> ~ local_url url).
Proof.
  unfold pac.FindProxyForURL. rewrite <- test_regexp.
  destruct (pac.test pac.regexp url); split; split; intros H;
    try reflexivity; try discriminate; congruence.
Qed.

Lemma FindProxyForURL_cases (url host : string) :
  (pac.FindProxyForURL url host = "PROXY localhost:8080" /\ local_url url) \/
  (pac.FindProxyForURL url host = "DIRECT" /\ ~ local_url url).
Proof.
  unfold pac.FindProxyForURL. rewrite <- test_regexp.
  destruct (pac.test pac.regexp url); [left | right]; split; auto.
Qed.

Lemma all_chars_app (f : ascii -> bool) (s t : string) :
  all_chars f (s ++ t) = all_chars f s && all_chars f t.
Proof.
  induction s as [| c s IH]; cbn [append all_chars]; [reflexivity |].
  now rewrite IH, andb_assoc.
Qed.

Lemma prefix_app (s t : string) : String.prefix s (s ++ t) = true.
Proof.
  induction s as [| c s IH]; [now destruct t |].
  change (String.prefix (String c s) (String c s ++ t))
    with (if ascii_dec c c then String.prefix s (s ++ t) else false).
  destruct (ascii_dec c c) as [_ | N]; [exact IH | contradiction].
Qed.

(** X18: a URL that does not start with [http://], an [https] URL for
    one, is never sent to the proxy. *)
Theorem FindProxyForURL_other_scheme (url host : string) :
  String.prefix "http://" url = false ->
  pac.FindProxyForURL url host = "DIRECT".
Proof.
  intros H. destruct (FindProxyForURL_cases url host) as [[_ L] | [D _]]; [| exact D].
  destruct L as [name [port [rest [-> _]]]].
  rewrite prefix_app in H. discriminate H.
Qed.

Lemma FindProxyForURL_other_scheme_witness :
  pac.FindProxyForURL "https://foo.pods.test.local/" "foo.pods.test.local" = "DIRECT".
Proof.
  apply (FindProxyForURL_other_scheme "https://foo.pods.test.local/" "foo.pods.test.local").
  reflexivity.
Defined.

Lemma append_inj_l (s a b : string) : (s ++ a)%string = (s ++ b)%string -> a = b.
Proof.
  induction s as [| c s IH]; cbn [append]; intros H; [exact H |].
  inversion H. now apply IH.
Qed.

Lemma slash_found (a b c rest : string) :
  all_chars not_slash (a ++ b ++ c ++ String "/" rest) = false.
Proof.
  rewrite !all_chars_app. cbn [all_chars]. unfold not_slash at 4.
  cbn [Ascii.eqb Bool.eqb negb andb]. now rewrite !andb_false_r.
Qed.

(** X19: an [http] URL with no slash after the scheme, that is one
    without a path, is never sent to the proxy, also when its host ends in
    [.local]. *)
Theorem FindProxyForURL_needs_path (authority host : string) :
  all_chars not_slash authority = true ->
  pac.FindProxyForURL ("http://" ++ authority) host = "DIRECT".
Proof.
  intros H.
  destruct (FindProxyForURL_cases ("http://" ++ authority) host) as [[_ L] | [D _]];
    [| exact D].
  destruct L as [name [port [rest [E _]]]].
  apply append_inj_l in E. rewrite E in H.
  change ("/" ++ rest)%string with (String "/" rest) in H.
  rewrite slash_found in H. discriminate H.
Qed.

Lemma FindProxyForURL_needs_path_witness :
  pac.FindProxyForURL "http://foo.pods.test.local:8080" "foo.pods.test.local" = "DIRECT".
Proof.
  apply (FindProxyForURL_needs_path "foo.pods.test.local:8080" "foo.pods.test.local").
  reflexivity.
Defined.

(** X20: only the start of the URL counts: a URL sent to the proxy stays
    so when anything is appended to it, and whatever host is passed
    along. *)
Theorem FindProxyForURL_extends (url suffix host host' : string) :
  pac.FindProxyForURL url host = "PROXY localhost:8080" ->
  pac.FindProxyForURL (url ++ suffix) host' = "PROXY localhost:8080".
Proof.
  intros H.
  destruct (FindProxyForURL_cases url host) as [[_ L] | [D _]]; [| congruence].
  destruct (FindProxyForURL_cases (url ++ suffix) host') as [[P _] | [_ N]];
    [exact P | exfalso; apply N].
  destruct L as [name [port [rest [-> K]]]].
  exists name, port, (rest ++ suffix)%string. split; [| exact K].
  now rewrite !append_assoc_s.
Qed.

Lemma FindProxyForURL_extends_witness :
  pac.FindProxyForURL ("http://foo.pods.test.local:8080/" ++ "a/b?c=d") "other"
  = "PROXY localhost:8080".
Proof.
  apply (FindProxyForURL_extends "http://foo.pods.test.local:8080/" "a/b?c=d"
           "foo.pods.test.local" "other").
  reflexivity.
Defined.
